(** * Contacts backend: authentication routes and contact repository

    A shallow embedding of [src/routes/auth.py] (the request handlers of the
    authentication flow) and of [src/repository/contacts.py] (the per-user
    contact queries), with the properties of the specification stated over
    them.

    Handlers are functions in a state-and-exception monad over the account
    table and the queue of background tasks. The collaborators that the
    handlers import ([auth_service], [repositories_users], [send_email]) are
    an interface record and a handful of store operations. *)

From Stdlib Require Import ZArith.
From stdpp Require Import gmap strings list fin_maps pretty.

Local Open Scope Z_scope.
Local Open Scope string_scope.

(** ** Exceptions and the handler monad *)

(** The exceptions a handler can end with: FastAPI's [HTTPException], which
    the framework turns into a response with that status code, and any other
    Python exception, named by its class. *)
Inductive Exception : Type :=
| HTTPException (status_code : Z) (detail : string)
| PyError (cls : string) (message : string).

Definition HTTP_400_BAD_REQUEST : Z := 400.
Definition HTTP_401_UNAUTHORIZED : Z := 401.
Definition HTTP_404_NOT_FOUND : Z := 404.
Definition HTTP_409_CONFLICT : Z := 409.
Definition HTTP_500_INTERNAL_SERVER_ERROR : Z := 500.

(** Accessing attribute [name] of [None]. *)
Definition AttributeError (name : string) : Exception :=
  PyError "AttributeError"
          ("'NoneType' object has no attribute '" ++ name ++ "'").

Definition is_HTTPException (e : Exception) : bool :=
  match e with HTTPException _ _ => true | PyError _ _ => false end.

Module User.
(** A row of the [users] table, as the handlers read it. *)
Record t : Type := mk {
  id : Z;
  username : string;
  email : string;
  password : string;
  confirmed : bool;
  refresh_token : option string
}.

Definition set_refresh_token (tok : option string) (u : t) : t :=
  mk (id u) (username u) (email u) (password u) (confirmed u) tok.
Definition set_confirmed (c : bool) (u : t) : t :=
  mk (id u) (username u) (email u) (password u) c (refresh_token u).
Definition set_password (p : string) (u : t) : t :=
  mk (id u) (username u) (email u) p (confirmed u) (refresh_token u).
End User.

(** A call of [send_email] queued on [BackgroundTasks]: the positional
    arguments [email], [username], then either the positional [host] or the
    keyword [token]. *)
Record Task : Type := send_email {
  task_email : string;
  task_username : string;
  task_host : option string;
  task_token : option string
}.

(** What a request sees and changes: the account table (the [email] column is
    unique, so rows are found by it) and the tasks queued for after the
    response. *)
Record World : Type := mkWorld {
  users : gmap string User.t;
  background_tasks : list Task
}.

Definition with_users (m : gmap string User.t) (w : World) : World :=
  mkWorld m (background_tasks w).

(** Every row is stored under its own email. *)
Definition keyed_by_email (w : World) : Prop :=
  ∀ k u, users w !! k = Some u → User.email u = k.

(** A computation ends with an exception or a value, and leaves a world
    behind in both cases: what was committed before a [raise] stays. *)
Definition M (A : Type) : Type := World → (Exception + A) * World.

Definition ret {A} (a : A) : M A := λ w, (inr a, w).
Definition raise {A} (e : Exception) : M A := λ w, (inl e, w).
Definition bind {A B} (m : M A) (k : A → M B) : M B :=
  λ w, match m w with
       | (inr a, w') => k a w'
       | (inl e, w') => (inl e, w')
       end.
(** [try: m except Exception as e: h e] *)
Definition try_except {A} (m : M A) (h : Exception → M A) : M A :=
  λ w, match m w with
       | (inr a, w') => (inr a, w')
       | (inl e, w') => h e w'
       end.
(** The outcome of a call that raises or returns without touching the store. *)
Definition lift {A} (r : Exception + A) : M A := λ w, (r, w).

Notation "'let*' x ':=' m 'in' k" := (bind m (λ x, k))
  (at level 10, x name, m at level 100, k at level 200).

(** [user.name] on a reference that may be [None]. *)
Definition getattr {A} (o : option User.t) (name : string) (f : User.t → A)
  : M A :=
  match o with
  | Some u => ret (f u)
  | None => raise (AttributeError name)
  end.

(** Truth value of an object reference: [None] is false, a row is true. *)
Definition truthy {A} (o : option A) : bool :=
  match o with Some _ => true | None => false end.

Definition add_task (t : Task) : M unit :=
  λ w, (inr tt, mkWorld (users w) (background_tasks w ++ [t])).

Definition failed {A} (r : Exception + A) : bool :=
  match r with inl _ => true | inr _ => false end.

(** ** The authentication service

    [src/services/auth.py] is imported by the routes as the object
    [auth_service]. The handlers only call its methods, so it is taken as an
    interface. The methods that read the clock (token issue and decode) take
    the time of the request. *)
Record AuthService : Type := {
  get_password_hash : string → string;
  verify_password : string → string → bool;
  create_access_token : Z → string → string;
  create_refresh_token : Z → string → string;
  decode_refresh_token : Z → string → Exception + string;
  create_email_token : Z → string → string;
  get_email_from_token : Z → string → Exception + string
}.

(** ** The account repository *)

Module repositories_users.

(** Modelled from the spec: [src/repository/users.py] is missing. "Account
    Store: persists user records keyed by email"; the lookup returns the
    row or [None]. *)
Definition get_user_by_email (email : string) : M (option User.t) :=
  λ w, (inr (users w !! email), w).

(** Modelled from the spec: [src/repository/users.py] is missing. "persists
    the refresh token on the account (overwriting any prior value)": the
    attribute of the row is set and committed; [None] clears it. *)
Definition update_token (user : option User.t) (token : option string)
  : M unit :=
  match user with
  | None => raise (AttributeError "refresh_token")
  | Some u =>
      λ w, (inr tt,
            with_users (<[User.email u := User.set_refresh_token token u]>
                          (users w)) w)
  end.

(** Modelled from the spec: [src/repository/users.py] is missing.
    "transitions account to confirmed": the row found by email gets
    [confirmed = True]. *)
Definition confirmed_email (email : string) : M unit :=
  let* user := get_user_by_email email in
  match user with
  | None => raise (AttributeError "confirmed")
  | Some u =>
      λ w, (inr tt,
            with_users (<[User.email u := User.set_confirmed true u]>
                          (users w)) w)
  end.

End repositories_users.

(** Modelled from the spec: [auth_service.update_password] of
    [src/services/auth.py] is missing. "hashes new_password and overwrites
    the account's credential hash". *)
Definition update_password (auth_service : AuthService)
    (email new_password : string) : M unit :=
  let* user := repositories_users.get_user_by_email email in
  match user with
  | None => raise (AttributeError "password")
  | Some u =>
      λ w, (inr tt,
            with_users
              (<[User.email u :=
                   User.set_password
                     (get_password_hash auth_service new_password) u]>
                 (users w)) w)
  end.

(** ** Request and response schemas *)

Record OAuth2PasswordRequestForm : Type := {
  form_username : string;
  form_password : string
}.

Record RequestEmail : Type := { body_email : string }.

Record TokenSchema : Type := {
  access_token : string;
  refresh_token : string;
  token_type : string
}.

(** The [{"message": ...}] dictionary of the informational responses. *)
Record Message : Type := { message : string }.

(** The body of a signup request. *)
Record UserSchema : Type := {
  schema_username : string;
  schema_email : string;
  schema_password : string
}.

Definition set_schema_password (p : string) (body : UserSchema) : UserSchema :=
  {| schema_username := schema_username body;
     schema_email := schema_email body;
     schema_password := p |}.

(** The next value of the id sequence of the [users] table: above every id
    in use. *)
Definition next_user_id (m : gmap string User.t) : Z :=
  1 + map_fold (λ _ u acc, Z.max (User.id u) acc) 0 m.

(** Modelled from the spec: [repositories_users.create_user] of
    [src/repository/users.py] is missing. "creates account in unconfirmed
    state": a new row with the fields of the body, the next id, the
    confirmation flag false and no refresh token, stored and returned. *)
Definition create_user (body : UserSchema) : M User.t :=
  λ w,
    let new_user :=
      User.mk (next_user_id (users w)) (schema_username body)
              (schema_email body) (schema_password body) false None in
    (inr new_user,
     with_users (<[User.email new_user := new_user]> (users w)) w).

(** ** The handlers of [src/routes/auth.py] *)

Module auth.
Section Handlers.

Context (auth_service : AuthService).

(** [now] is the clock at the time of the request. *)
Definition login (now : Z) (body : OAuth2PasswordRequestForm)
  : M TokenSchema :=
  try_except
    (let* user := repositories_users.get_user_by_email (form_username body) in
     if negb (truthy user) then
       raise (HTTPException HTTP_401_UNAUTHORIZED "Invalid email")
     else
     let* confirmed := getattr user "confirmed" User.confirmed in
     if negb confirmed then
       raise (HTTPException HTTP_401_UNAUTHORIZED "Email not confirmed")
     else
     let* password := getattr user "password" User.password in
     if negb (verify_password auth_service (form_password body) password) then
       raise (HTTPException HTTP_401_UNAUTHORIZED "Invalid password")
     else
     let* email := getattr user "email" User.email in
     let access_token := create_access_token auth_service now email in
     let refresh_token := create_refresh_token auth_service now email in
     let* _ := repositories_users.update_token user (Some refresh_token) in
     ret {| access_token := access_token;
            refresh_token := refresh_token;
            token_type := "bearer" |})
    (λ e,
       if is_HTTPException e then raise e
       else raise (HTTPException HTTP_500_INTERNAL_SERVER_ERROR
                                 "Internal server error")).

(** [token] is [credentials.credentials], the bearer credential. *)
Definition refresh_token (now : Z) (token : string) : M TokenSchema :=
  let* email := lift (decode_refresh_token auth_service now token) in
  let* user := repositories_users.get_user_by_email email in
  let* stored := getattr user "refresh_token" User.refresh_token in
  if negb (bool_decide (stored = Some token)) then
    let* _ := repositories_users.update_token user None in
    raise (HTTPException HTTP_401_UNAUTHORIZED "Invalid refresh token")
  else
  let access_token := create_access_token auth_service now email in
  let refresh_token := create_refresh_token auth_service now email in
  let* _ := repositories_users.update_token user (Some refresh_token) in
  ret {| access_token := access_token;
         refresh_token := refresh_token;
         token_type := "bearer" |}.

Definition confirmed_email (now : Z) (token : string) : M Message :=
  let* email := lift (get_email_from_token auth_service now token) in
  let* user := repositories_users.get_user_by_email email in
  if negb (truthy user) then
    raise (HTTPException HTTP_400_BAD_REQUEST "Verification error")
  else
  let* confirmed := getattr user "confirmed" User.confirmed in
  if confirmed then
    ret {| message := "Your email is already confirmed" |}
  else
  let* _ := repositories_users.confirmed_email email in
  ret {| message := "Email confirmed" |}.

(** [base_url] is [str(request.base_url)]. *)
Definition request_email (base_url : string) (body : RequestEmail)
  : M Message :=
  let* user := repositories_users.get_user_by_email (body_email body) in
  let* confirmed := getattr user "confirmed" User.confirmed in
  if confirmed then
    ret {| message := "Your email is already confirmed" |}
  else
  let* _ :=
    (if truthy user then
       let* email := getattr user "email" User.email in
       let* username := getattr user "username" User.username in
       add_task (send_email email username (Some base_url) None)
     else ret tt) in
  ret {| message := "Check your email for confirmation." |}.

Definition password_reset_request (now : Z) (body : RequestEmail)
  : M Message :=
  let* user := repositories_users.get_user_by_email (body_email body) in
  if negb (truthy user) then
    raise (HTTPException HTTP_404_NOT_FOUND "User not found")
  else
  let reset_token := create_email_token auth_service now (body_email body) in
  let* username := getattr user "username" User.username in
  let* _ :=
    add_task (send_email (body_email body) username None (Some reset_token)) in
  ret {| message := "Password reset email sent" |}.

Definition password_reset_confirm (now : Z) (token new_password : string)
  : M Message :=
  try_except
    (let* email := lift (get_email_from_token auth_service now token) in
     let* user := repositories_users.get_user_by_email email in
     if negb (truthy user) then
       raise (HTTPException HTTP_404_NOT_FOUND "User not found")
     else
     let* _ := update_password auth_service email new_password in
     ret {| message := "Password has been reset successfully" |})
    (λ _, raise (HTTPException HTTP_400_BAD_REQUEST "Invalid token or user")).

(** [base_url] is [str(request.base_url)]. The body is mutated to carry the
    hash before the row is created. *)
Definition signup (base_url : string) (body : UserSchema) : M User.t :=
  let* exist_user :=
    repositories_users.get_user_by_email (schema_email body) in
  if truthy exist_user then
    raise (HTTPException HTTP_409_CONFLICT "Account already exists")
  else
  let body :=
    set_schema_password
      (get_password_hash auth_service (schema_password body)) body in
  let* new_user := create_user body in
  let* _ :=
    add_task (send_email (User.email new_user) (User.username new_user)
                         (Some base_url) None) in
  ret new_user.

End Handlers.
End auth.

(** ** The authentication router *)

(** A request to one of the routes of [router], with the clock or the base
    URL that its handler reads. *)
Inductive Request : Type :=
| Login (now : Z) (body : OAuth2PasswordRequestForm)
| RefreshToken (now : Z) (token : string)
| ConfirmedEmail (now : Z) (token : string)
| RequestEmailConfirmation (base_url : string) (body : RequestEmail)
| PasswordReset (now : Z) (body : RequestEmail)
| PasswordResetConfirm (now : Z) (token new_password : string).

Definition Response : Type := TokenSchema + Message.

Definition route (auth_service : AuthService) (r : Request) : M Response :=
  match r with
  | Login now body =>
      let* t := auth.login auth_service now body in ret (inl t)
  | RefreshToken now token =>
      let* t := auth.refresh_token auth_service now token in ret (inl t)
  | ConfirmedEmail now token =>
      let* m := auth.confirmed_email auth_service now token in ret (inr m)
  | RequestEmailConfirmation base_url body =>
      let* m := auth.request_email base_url body in ret (inr m)
  | PasswordReset now body =>
      let* m := auth.password_reset_request auth_service now body in
      ret (inr m)
  | PasswordResetConfirm now token new_password =>
      let* m :=
        auth.password_reset_confirm auth_service now token new_password in
      ret (inr m)
  end.

(** Requests served one after the other: the outcome of each, in order, and
    the world after the last. *)
Fixpoint serve (auth_service : AuthService) (rs : list Request) (w : World)
  : list (Exception + Response) * World :=
  match rs with
  | [] => ([], w)
  | r :: rs' =>
      let (o, w') := route auth_service r w in
      let (os, w'') := serve auth_service rs' w' in
      (o :: os, w'')
  end.

(** ** A token codec after the specification

    Used to run the handlers on concrete requests. *)

Module TokenCodec.

(** First ["."] of a string: the text before it and the text after it. *)
Fixpoint split_dot (s : string) : option (string * string) :=
  match s with
  | EmptyString => None
  | String c rest =>
      if Ascii.eqb c (Ascii.ascii_of_nat 46) then Some (EmptyString, rest)
      else match split_dot rest with
           | Some (a, b) => Some (String c a, b)
           | None => None
           end
  end.

(** Value of a string of decimal digits, read after the digits [acc]. *)
Fixpoint decimal (s : string) (acc : Z) : option Z :=
  match s with
  | EmptyString => Some acc
  | String c rest =>
      let d := Z.of_nat (Ascii.nat_of_ascii c) - 48 in
      if ((0 <=? d) && (d <=? 9))%Z then decimal rest (10 * acc + d) else None
  end.

Definition InvalidTokenError : Exception :=
  PyError "InvalidTokenError" "Could not validate credentials".

(** Modelled from the spec: the Token Codec of [src/services/auth.py] is
    missing. "issue(subject, purpose, ttl) -> token: produces a signed
    token string encoding subject, purpose, and an absolute expiry
    timestamp." The token is the text [purpose.expiry.subject]; the
    signature is left out. *)
Definition issue (subject purpose : string) (ttl now : Z) : string :=
  purpose ++ "." ++ pretty (now + ttl) ++ "." ++ subject.

(** Modelled from the spec: the Token Codec of [src/services/auth.py] is
    missing. "decode(token, expected_purpose) -> subject: fails with
    InvalidTokenError if the signature does not verify, the token is
    expired, or the purpose tag does not match the expected one." *)
Definition decode (token expected_purpose : string) (now : Z)
  : Exception + string :=
  match split_dot token with
  | None => inl InvalidTokenError
  | Some (purpose, rest) =>
      match split_dot rest with
      | None => inl InvalidTokenError
      | Some (exp, subject) =>
          match decimal exp 0 with
          | None => inl InvalidTokenError
          | Some expiry =>
              if String.eqb purpose expected_purpose && (now <? expiry)%Z
              then inr subject
              else inl InvalidTokenError
          end
      end
  end.

(** Modelled from the spec: the Credential Verifier of
    [src/services/auth.py] is missing. A hash that [verify] recognises;
    salting is left out. *)
Definition hash (password : string) : string := "$2b$" ++ password.
Definition verify (password hashed : string) : bool :=
  String.eqb (hash password) hashed.

(** Modelled from the spec: [auth_service] of [src/services/auth.py] is
    missing. Access tokens live 15 minutes, refresh tokens 7 days, email
    tokens 24 hours; [create_email_token] and [get_email_from_token] are
    the one pair of methods that the routes use for both the verification
    and the reset link, so they carry one purpose. *)
Definition auth_service : AuthService := {|
  get_password_hash := hash;
  verify_password := verify;
  create_access_token := λ now sub, issue sub "access" 900 now;
  create_refresh_token := λ now sub, issue sub "refresh" 604800 now;
  decode_refresh_token := λ now tok, decode tok "refresh" now;
  create_email_token := λ now sub, issue sub "email-verification" 86400 now;
  get_email_from_token := λ now tok, decode tok "email-verification" now
|}.

End TokenCodec.

(** ** Calendar dates *)

Module date.

Record t : Type := mk { year : Z; month : Z; day : Z }.

Definition is_leap (y : Z) : bool :=
  ((y mod 4 =? 0) && (negb (y mod 100 =? 0) || (y mod 400 =? 0)))%Z.

Definition days_in_month (y m : Z) : Z :=
  if (m =? 2)%Z then (if is_leap y then 29 else 28)
  else if ((m =? 4) || (m =? 6) || (m =? 9) || (m =? 11))%Z then 30
  else 31.

Definition next_day (d : t) : t :=
  if (day d <? days_in_month (year d) (month d))%Z
  then mk (year d) (month d) (day d + 1)
  else if (month d <? 12)%Z then mk (year d) (month d + 1) 1
  else mk (year d + 1) 1 1.

(** [d + timedelta(days=n)] for a count [n] of days. *)
Fixpoint add_days (n : nat) (d : t) : t :=
  match n with
  | O => d
  | S n' => add_days n' (next_day d)
  end.

Definition pad2 (n : Z) : string :=
  if (n <? 10)%Z then "0" ++ pretty n else pretty n.

(** [to_char(d, 'MM-DD')] *)
Definition to_char_MM_DD (d : t) : string :=
  pad2 (month d) ++ "-" ++ pad2 (day d).

End date.

(** ** The contact table *)

Module Contact.
(** Modelled from the spec: [src/entity/models.py] is missing. A contact
    "belongs to exactly one user"; "fields are simple scalars (name parts,
    email, phone, birthday, free-text note)". *)
Record t : Type := mk {
  id : Z;
  first_name : string;
  last_name : string;
  email : string;
  phone_number : string;
  birthday : date.t;
  note : option string;
  user_id : Z
}.
End Contact.

(** Modelled from the spec: [src/schemas/contact.py] is missing. The body of
    a create request: the fields of a contact, without its id and owner. *)
Record ContactCreateSchema : Type := {
  new_first_name : string;
  new_last_name : string;
  new_email : string;
  new_phone_number : string;
  new_birthday : date.t;
  new_note : option string
}.

(** Modelled from the spec: [src/schemas/contact.py] is missing. The body of
    an "update (partial)" request: [None] is a field that was not set, which
    [model_dump(exclude_unset=True)] leaves out. *)
Record ContactUpdateSchema : Type := {
  upd_first_name : option string;
  upd_last_name : option string;
  upd_email : option string;
  upd_phone_number : option string;
  upd_birthday : option date.t;
  upd_note : option (option string)
}.

(** The session's view of the [contacts] table: its rows in storage order and
    the next value of the id sequence. *)
Record Session : Type := mkSession {
  rows : list Contact.t;
  id_seq : Z
}.

Definition MultipleResultsFound : Exception :=
  PyError "MultipleResultsFound"
          "Multiple rows were found when one or none was required".

(** [Result.scalar_one_or_none()] *)
Definition scalar_one_or_none {A} (result : list A) : Exception + option A :=
  match result with
  | [] => inr None
  | [x] => inr (Some x)
  | _ => inl MultipleResultsFound
  end.

(** Truth value of a [str] argument that may be [None]. *)
Definition str_truthy (s : option string) : bool :=
  match s with
  | None => false
  | Some s => negb (String.eqb s "")
  end.

(** ** The queries of [src/repository/contacts.py] *)

Module contacts.
Section Repository.

(** The database's [ILIKE] operator: [ilike value pattern]. *)
Context (ilike : string → string → bool).

(** [filter_by(user=user)] and [Contact.user == user] *)
Definition owned_by (user : User.t) (c : Contact.t) : bool :=
  bool_decide (Contact.user_id c = User.id user).

(** One conjunct of the [and_] of [get_contacts]: the Python [or] decides
    between the constant [True] and the [ILIKE] clause. *)
Definition name_clause (arg : option string) (column : Contact.t → string)
    (c : Contact.t) : bool :=
  match arg with
  | None => true
  | Some s => ilike (column c) ("%" ++ s ++ "%")
  end.

Definition get_contacts (limit offset : nat)
    (first_name last_name email : option string)
    (db : Session) (user : User.t) : list Contact.t :=
  let stmt :=
    if str_truthy first_name || str_truthy last_name || str_truthy email
    then λ c, owned_by user c
              && (name_clause first_name Contact.first_name c
                  && name_clause last_name Contact.last_name c
                  && name_clause email Contact.email c)
    else owned_by user in
  take limit (drop offset (filter (λ c, stmt c = true) (rows db))).

(** [select(Contact).filter_by(id=contact_id, user=user)] *)
Definition selected (contact_id : Z) (user : User.t) (c : Contact.t) : bool :=
  bool_decide (Contact.id c = contact_id) && owned_by user c.

Definition get_contact (contact_id : Z) (db : Session) (user : User.t)
  : Exception + option Contact.t :=
  scalar_one_or_none
    (filter (λ c, selected contact_id user c = true) (rows db)).

Definition create_contact (body : ContactCreateSchema) (db : Session)
    (user : User.t) : Contact.t * Session :=
  let contact :=
    Contact.mk (id_seq db) (new_first_name body) (new_last_name body)
               (new_email body) (new_phone_number body) (new_birthday body)
               (new_note body) (User.id user) in
  (contact, mkSession (rows db ++ [contact]) (id_seq db + 1)).

(** The [setattr] loop over the fields that the body sets. *)
Definition apply_update (body : ContactUpdateSchema) (c : Contact.t)
  : Contact.t :=
  Contact.mk (Contact.id c)
             (default (Contact.first_name c) (upd_first_name body))
             (default (Contact.last_name c) (upd_last_name body))
             (default (Contact.email c) (upd_email body))
             (default (Contact.phone_number c) (upd_phone_number body))
             (default (Contact.birthday c) (upd_birthday body))
             (default (Contact.note c) (upd_note body))
             (Contact.user_id c).

Definition update_contact (contact_id : Z) (body : ContactUpdateSchema)
    (db : Session) (user : User.t)
  : (Exception + option Contact.t) * Session :=
  match scalar_one_or_none
          (filter (λ c, selected contact_id user c = true) (rows db)) with
  | inl e => (inl e, db)
  | inr None => (inr None, db)
  | inr (Some contact) =>
      (inr (Some (apply_update body contact)),
       mkSession
         (map (λ c, if selected contact_id user c
                    then apply_update body c else c) (rows db))
         (id_seq db))
  end.

Definition delete_contact (contact_id : Z) (db : Session) (user : User.t)
  : (Exception + option Contact.t) * Session :=
  match scalar_one_or_none
          (filter (λ c, selected contact_id user c = true) (rows db)) with
  | inl e => (inl e, db)
  | inr None => (inr None, db)
  | inr (Some contact) =>
      (inr (Some contact),
       mkSession
         (filter (λ c, selected contact_id user c = false) (rows db))
         (id_seq db))
  end.

(** [today] is [date.today()]. *)
Definition get_upcoming_birthdays (today : date.t) (db : Session)
    (user : User.t) : list Contact.t :=
  let end_date := date.add_days 7 today in
  filter
    (λ c,
       String.leb (date.to_char_MM_DD today)
                  (date.to_char_MM_DD (Contact.birthday c))
       && String.leb (date.to_char_MM_DD (Contact.birthday c))
                     (date.to_char_MM_DD end_date)
       && owned_by user c = true)
    (rows db).

End Repository.
End contacts.

(** The birthday [b] (its month and day) is the month and day of today or of
    one of the 7 days after it: the query that the specification names. *)
Definition birthday_within_7_days (today b : date.t) : bool :=
  existsb
    (λ k, let d := date.add_days k today in
          bool_decide (date.month d = date.month b)
          && bool_decide (date.day d = date.day b))
    (seq 0 8).

(** ** What a request can change in the account table *)

(** The three ways in which a handler rewrites a row. *)
Inductive row_update : User.t → User.t → Prop :=
| token_written tok u : row_update u (User.set_refresh_token tok u)
| email_confirmed u : row_update u (User.set_confirmed true u)
| password_written p u : row_update u (User.set_password p u).

(** A request leaves the table alone or rewrites one row that it found. *)
Definition touches (w w' : World) : Prop :=
  users w' = users w
  ∨ ∃ e u u', users w !! e = Some u ∧ row_update u u'
              ∧ users w' = <[User.email u := u']> (users w).

(** The rows of the table that belong to users other than [user]. *)
Definition foreign_rows (user : User.t) (db : Session) : list Contact.t :=
  filter (λ c, Contact.user_id c ≠ User.id user) (rows db).

(** Every id in the table is below the next value of the id sequence. *)
Definition ids_below (db : Session) : Prop :=
  ∀ c, c ∈ rows db → (Contact.id c < id_seq db)%Z.

(** An update body in which no field was set. *)
Definition unset_body : ContactUpdateSchema :=
  {| upd_first_name := None; upd_last_name := None; upd_email := None;
     upd_phone_number := None; upd_birthday := None; upd_note := None |}.

(** A date of the calendar. *)
Definition valid_date (d : date.t) : Prop :=
  (1 ≤ date.month d ≤ 12)%Z
  ∧ (1 ≤ date.day d ≤ date.days_in_month (date.year d) (date.month d))%Z.

(** [a] is not later in the year than [b], by month and then by day. *)
Definition month_day_le (a b : date.t) : Prop :=
  (date.month a < date.month b)%Z
  ∨ (date.month a = date.month b ∧ (date.day a ≤ date.day b)%Z).

Definition month_day_leb (ma da mb db : Z) : bool :=
  ((ma <? mb) || ((ma =? mb) && (da <=? db)))%Z.

(** The [MM-DD] texts of all months 1..12 and days 1..31 compare as their
    month and day do. *)
Definition mm_dd_order_check : bool :=
  forallb (λ ma, forallb (λ da, forallb (λ mb, forallb (λ db,
    Bool.eqb
      (String.leb (date.pad2 ma ++ "-" ++ date.pad2 da)
                  (date.pad2 mb ++ "-" ++ date.pad2 db))
      (month_day_leb ma da mb db))
    (seqZ 1 31)) (seqZ 1 12)) (seqZ 1 31)) (seqZ 1 12).

(** ** Concrete accounts and worlds *)

Module Examples.

(** The refresh token that a login of [a@x.com] at time 0 issues. *)
Definition R0 : string := TokenCodec.issue "a@x.com" "refresh" 604800 0.

(** A confirmed account holding [R0]. *)
Definition alice : User.t :=
  User.mk 1 "alice" "a@x.com" (TokenCodec.hash "pw") true (Some R0).

(** An account that has not confirmed its email. *)
Definition bob : User.t :=
  User.mk 2 "bob" "b@x.com" (TokenCodec.hash "secret") false None.

Definition world : World :=
  mkWorld (<["a@x.com" := alice]> (<["b@x.com" := bob]> ∅)) [].

Definition empty_world : World := mkWorld ∅ [].

End Examples.

Module ContactExamples.

Definition carol : Contact.t :=
  Contact.mk 7 "Carol" "Jones" "carol@x.com" "555-0100"
             (date.mk 1990 1 2) None 1.

(** A contact of bob with a birthday in the same week. *)
Definition dave : Contact.t :=
  Contact.mk 8 "Dave" "Smith" "dave@x.com" "555-0101"
             (date.mk 1985 12 30) (Some "gym") 2.

Definition session : Session := mkSession [carol; dave] 9.

Fixpoint contains (s sub : string) : bool :=
  String.prefix sub s
  || match s with
     | EmptyString => false
     | String _ rest => contains rest sub
     end.

Definition lower (c : Ascii.ascii) : Ascii.ascii :=
  let n := Ascii.nat_of_ascii c in
  if (65 <=? n)%nat && (n <=? 90)%nat then Ascii.ascii_of_nat (n + 32)
  else c.

Fixpoint lowercase (s : string) : string :=
  match s with
  | EmptyString => EmptyString
  | String c rest => String (lower c) (lowercase rest)
  end.

(** [ILIKE] for the patterns of the shape [%s%] that [get_contacts]
    builds, on texts without wildcard characters: containment up to the
    case of ASCII letters. *)
Definition ilike (value pattern : string) : bool :=
  contains (lowercase value)
           (lowercase
              (String.substring 1 (String.length pattern - 2) pattern)).

End ContactExamples.

(** Unfolds a handler down to the lookups and tests it performs. *)
Ltac run :=
  unfold auth.login, auth.refresh_token, auth.confirmed_email,
         auth.request_email, auth.password_reset_request,
         auth.password_reset_confirm, update_password,
         repositories_users.confirmed_email, repositories_users.update_token,
         repositories_users.get_user_by_email,
         try_except, bind, lift, getattr, add_task, raise, ret, truthy;
  simpl.

(** * Properties of the authentication routes *)

Lemma keyed_by_email_example : keyed_by_email Examples.world.
Proof.
  intros k u. unfold Examples.world; simpl.
  rewrite lookup_insert. case_decide as Ha.
  - intros [= <-]. exact Ha.
  - rewrite lookup_insert. case_decide as Hb.
    + intros [= <-]. exact Hb.
    + rewrite lookup_empty. discriminate.
Qed.

(** ** Running the monad *)

Lemma bind_inr {A B} (m : M A) (k : A → M B) w a w' :
  m w = (inr a, w') → bind m k w = k a w'.
Proof. unfold bind. by intros ->. Qed.

Lemma bind_inl {A B} (m : M A) (k : A → M B) w e w' :
  m w = (inl e, w') → bind m k w = (inl e, w').
Proof. unfold bind. by intros ->. Qed.

Lemma get_user_by_email_run email w :
  repositories_users.get_user_by_email email w = (inr (users w !! email), w).
Proof. reflexivity. Qed.

(** ** Login *)

(** C4. Login on an account whose confirmation flag is false ends with
    [HTTPException 401], whatever password is submitted, the correct one
    included; no token pair is returned and the world, with the stored
    refresh token, is the one before the call. *)
Theorem login_unconfirmed_unauthorized
    (svc : AuthService) (now : Z) (email submitted : string)
    (u : User.t) (w : World) :
  users w !! email = Some u →
  User.confirmed u = false →
  auth.login svc now {| form_username := email; form_password := submitted |} w
  = (inl (HTTPException HTTP_401_UNAUTHORIZED "Email not confirmed"), w).
Proof.
  intros Hu Hc. run. rewrite Hu; simpl. rewrite Hc; simpl. reflexivity.
Qed.

Lemma login_unconfirmed_unauthorized_witness :
  TokenCodec.verify "secret" (User.password Examples.bob) = true
  ∧ auth.login TokenCodec.auth_service 100
      {| form_username := "b@x.com"; form_password := "secret" |}
      Examples.world
    = (inl (HTTPException 401 "Email not confirmed"), Examples.world).
Proof.
  split; [reflexivity |].
  apply (login_unconfirmed_unauthorized TokenCodec.auth_service 100
           "b@x.com" "secret" Examples.bob Examples.world);
    reflexivity.
Defined.

(** ** Refresh *)

(** The mismatch branch of [refresh_token], run to its end. *)
Lemma refresh_mismatch_run
    (svc : AuthService) (now : Z) (token e : string) (u : User.t) (w : World) :
  keyed_by_email w →
  decode_refresh_token svc now token = inr e →
  users w !! e = Some u →
  User.refresh_token u ≠ Some token →
  auth.refresh_token svc now token w
  = (inl (HTTPException HTTP_401_UNAUTHORIZED "Invalid refresh token"),
     with_users (<[e := User.set_refresh_token None u]> (users w)) w).
Proof.
  intros Hk Hd Hu Hne. run. rewrite Hd, Hu; simpl.
  rewrite bool_decide_eq_false_2 by exact Hne. simpl.
  by rewrite (Hk e u Hu).
Qed.

(** C2. When the presented token decodes but is not the refresh token stored
    on the account of the decoded subject, [refresh_token] ends with
    [HTTPException 401] and the refresh token read from that account
    afterwards is [None], whatever it was before; the other fields of the
    account, the other accounts and the task queue are as before. *)
Theorem refresh_mismatch_clears_token
    (svc : AuthService) (now : Z) (token e : string) (u : User.t) (w : World) :
  keyed_by_email w →
  decode_refresh_token svc now token = inr e →
  users w !! e = Some u →
  User.refresh_token u ≠ Some token →
  let (r, w') := auth.refresh_token svc now token w in
  r = inl (HTTPException HTTP_401_UNAUTHORIZED "Invalid refresh token")
  ∧ User.refresh_token <$> users w' !! e = Some None
  ∧ users w' !! e
    = Some (User.mk (User.id u) (User.username u) (User.email u)
                    (User.password u) (User.confirmed u) None)
  ∧ (∀ k, k ≠ e → users w' !! k = users w !! k)
  ∧ background_tasks w' = background_tasks w.
Proof.
  intros Hk Hd Hu Hne.
  rewrite (refresh_mismatch_run svc now token e u w Hk Hd Hu Hne). simpl.
  split; [reflexivity |].
  split; [by rewrite lookup_insert_eq |].
  split; [by rewrite lookup_insert_eq |].
  split; [| reflexivity].
  intros k Hke. by apply lookup_insert_ne.
Qed.

Lemma refresh_mismatch_clears_token_witness :
  let stale := TokenCodec.issue "a@x.com" "refresh" 604800 50 in
  User.refresh_token <$> users Examples.world !! "a@x.com"
  = Some (Some Examples.R0)
  ∧ let (r, w') :=
      auth.refresh_token TokenCodec.auth_service 100 stale Examples.world in
    r = inl (HTTPException 401 "Invalid refresh token")
    ∧ User.refresh_token <$> users w' !! "a@x.com" = Some None
    ∧ users w' !! "a@x.com"
      = Some (User.mk 1 "alice" "a@x.com" (TokenCodec.hash "pw") true None)
    ∧ (∀ k, k ≠ "a@x.com" → users w' !! k = users Examples.world !! k)
    ∧ background_tasks w' = background_tasks Examples.world.
Proof.
  split; [reflexivity |].
  apply (refresh_mismatch_clears_token TokenCodec.auth_service 100
           (TokenCodec.issue "a@x.com" "refresh" 604800 50) "a@x.com"
           Examples.alice Examples.world).
  - exact keyed_by_email_example.
  - reflexivity.
  - reflexivity.
  - vm_compute. discriminate.
Defined.

(** C10. When the presented token decodes to a subject that matches no
    stored account, [refresh_token] reads an attribute of the absent row: it
    ends with an [AttributeError], which is neither a token pair nor an
    [HTTPException], and the world is the one before the call. *)
Theorem refresh_absent_account_raises
    (svc : AuthService) (now : Z) (token e : string) (w : World) :
  decode_refresh_token svc now token = inr e →
  users w !! e = None →
  auth.refresh_token svc now token w
  = (inl (AttributeError "refresh_token"), w)
  ∧ is_HTTPException (AttributeError "refresh_token") = false.
Proof.
  intros Hd Hu. split; [| reflexivity].
  run. rewrite Hd, Hu. reflexivity.
Qed.

Lemma refresh_absent_account_raises_witness :
  let orphan := TokenCodec.issue "ghost@x.com" "refresh" 604800 0 in
  auth.refresh_token TokenCodec.auth_service 100 orphan Examples.world
  = (inl (PyError "AttributeError"
                  "'NoneType' object has no attribute 'refresh_token'"),
     Examples.world)
  ∧ is_HTTPException (AttributeError "refresh_token") = false.
Proof.
  apply (refresh_absent_account_raises TokenCodec.auth_service 100
           (TokenCodec.issue "ghost@x.com" "refresh" 604800 0) "ghost@x.com"
           Examples.world);
    reflexivity.
Defined.

(** ** Email confirmation requests *)

(** On an email that matches no account, [request_email] reads [confirmed]
    of the absent row before it tests the row. *)
Lemma request_email_absent
    (base_url : string) (body : RequestEmail) (w : World) :
  users w !! body_email body = None →
  auth.request_email base_url body w = (inl (AttributeError "confirmed"), w).
Proof. intros Hu. run. rewrite Hu. reflexivity. Qed.

(** C5. [request_email] on an email that matches no stored account: the
    handler does not return a response, it ends with an [AttributeError]. *)
Theorem request_email_absent_account_raises :
  auth.request_email "http://testserver/"
    {| body_email := "ghost@x.com" |} Examples.empty_world
  = (inl (PyError "AttributeError"
                  "'NoneType' object has no attribute 'confirmed'"),
     Examples.empty_world).
Proof. reflexivity. Qed.

(** ** Password reset requests *)

(** C7. [password_reset_request] ends with [HTTPException 404] when no
    account matches the email; otherwise it issues an email token for that
    email, queues one [send_email] task carrying it and returns its message.
    In both cases the account table is the one before the call, so no field
    of any account changes. *)
Theorem password_reset_request_frame
    (svc : AuthService) (now : Z) (body : RequestEmail) (w : World) :
  (users w !! body_email body = None →
   auth.password_reset_request svc now body w
   = (inl (HTTPException HTTP_404_NOT_FOUND "User not found"), w))
  ∧ (∀ u, users w !! body_email body = Some u →
     auth.password_reset_request svc now body w
     = (inr {| message := "Password reset email sent" |},
        mkWorld (users w)
          (background_tasks w
           ++ [send_email (body_email body) (User.username u) None
                 (Some (create_email_token svc now (body_email body)))]))).
Proof.
  split.
  - intros Hu. run. rewrite Hu. reflexivity.
  - intros u Hu. run. rewrite Hu. reflexivity.
Qed.

Lemma password_reset_request_frame_witness :
  auth.password_reset_request TokenCodec.auth_service 100
    {| body_email := "ghost@x.com" |} Examples.world
  = (inl (HTTPException 404 "User not found"), Examples.world)
  ∧ auth.password_reset_request TokenCodec.auth_service 100
      {| body_email := "a@x.com" |} Examples.world
    = (inr {| message := "Password reset email sent" |},
       mkWorld (users Examples.world)
         [send_email "a@x.com" "alice" None
            (Some "email-verification.86500.a@x.com")]).
Proof.
  split.
  - apply (proj1 (password_reset_request_frame TokenCodec.auth_service 100
                      {| body_email := "ghost@x.com" |} Examples.world)).
    reflexivity.
  - apply (proj2 (password_reset_request_frame TokenCodec.auth_service 100
                      {| body_email := "a@x.com" |} Examples.world)
                 Examples.alice).
    reflexivity.
Defined.

(** ** The account table across requests *)

Lemma row_update_email u u' : row_update u u' → User.email u' = User.email u.
Proof. by destruct 1. Qed.

Lemma row_update_confirmed u u' :
  row_update u u' → User.confirmed u = true → User.confirmed u' = true.
Proof. by destruct 1. Qed.

Lemma route_touches svc r w : touches w (route svc r w).2.
Proof.
  destruct r; unfold route; run;
    repeat (case_match; simplify_eq/=); try (by left);
    right; eexists _, _, _; (split; [eassumption |]);
    (split; [| reflexivity]); constructor.
Qed.

Lemma touches_keyed w w' :
  touches w w' → keyed_by_email w → keyed_by_email w'.
Proof.
  intros [Heq | (e & u & u' & Hu & Hup & Heq)] Hk k x; rewrite Heq.
  - apply Hk.
  - rewrite lookup_insert. case_decide as Hd.
    + intros [= <-]. by rewrite (row_update_email _ _ Hup).
    + apply Hk.
Qed.

Lemma touches_confirmed w w' k x :
  touches w w' → keyed_by_email w →
  users w !! k = Some x → User.confirmed x = true →
  ∃ x', users w' !! k = Some x' ∧ User.confirmed x' = true.
Proof.
  intros [Heq | (e & u & u' & Hu & Hup & Heq)] Hk Hx Hc; rewrite Heq.
  - eauto.
  - rewrite lookup_insert. case_decide as Hd.
    + exists u'. split; [reflexivity |].
      apply (row_update_confirmed _ _ Hup).
      rewrite (Hk _ _ Hu) in Hd. subst e. congruence.
    + eauto.
Qed.

Lemma serve_cons svc r rs w :
  serve svc (r :: rs) w
  = ((route svc r w).1 :: (serve svc rs (route svc r w).2).1,
     (serve svc rs (route svc r w).2).2).
Proof.
  simpl. destruct (route svc r w) as [o w']. simpl.
  by destruct (serve svc rs w').
Qed.

Lemma serve_keyed svc rs : ∀ w,
  keyed_by_email w → keyed_by_email (serve svc rs w).2.
Proof.
  induction rs as [| r rs IH]; intros w Hk; [exact Hk |].
  rewrite serve_cons. simpl. apply IH.
  exact (touches_keyed _ _ (route_touches svc r w) Hk).
Qed.

Lemma serve_confirmed svc rs : ∀ w k x,
  keyed_by_email w →
  users w !! k = Some x → User.confirmed x = true →
  ∃ x', users (serve svc rs w).2 !! k = Some x' ∧ User.confirmed x' = true.
Proof.
  induction rs as [| r rs IH]; intros w k x Hk Hx Hc; [by exists x |].
  rewrite serve_cons. simpl.
  destruct (touches_confirmed _ _ k x (route_touches svc r w) Hk Hx Hc)
    as (x' & Hx' & Hc').
  apply (IH _ k x'); [| assumption | assumption].
  exact (touches_keyed _ _ (route_touches svc r w) Hk).
Qed.

(** ** Email confirmation *)

(** C6. Confirming an account that is already confirmed returns the message
    "Your email is already confirmed", not an exception, and leaves the
    world as it was; and the flag only goes one way: whatever requests the
    router serves afterwards, the confirmation flow among them, an account
    that is confirmed is still stored and still confirmed. *)
Theorem confirmed_email_idempotent_one_way
    (svc : AuthService) (now : Z) (token e : string) (u : User.t)
    (w : World) (rs : list Request) :
  keyed_by_email w →
  get_email_from_token svc now token = inr e →
  users w !! e = Some u →
  User.confirmed u = true →
  auth.confirmed_email svc now token w
  = (inr {| message := "Your email is already confirmed" |}, w)
  ∧ ∃ u', users (serve svc rs w).2 !! e = Some u'
          ∧ User.confirmed u' = true.
Proof.
  intros Hk Hd Hu Hc. split.
  - run. rewrite Hd, Hu; simpl. rewrite Hc. reflexivity.
  - exact (serve_confirmed svc rs w e u Hk Hu Hc).
Qed.

Lemma confirmed_email_idempotent_one_way_witness :
  let link := TokenCodec.issue "a@x.com" "email-verification" 86400 0 in
  let stale := TokenCodec.issue "a@x.com" "refresh" 604800 50 in
  auth.confirmed_email TokenCodec.auth_service 100 link Examples.world
  = (inr {| message := "Your email is already confirmed" |}, Examples.world)
  ∧ ∃ u',
      users (serve TokenCodec.auth_service
               [ConfirmedEmail 200 link;
                RequestEmailConfirmation "http://testserver/"
                  {| body_email := "a@x.com" |};
                RefreshToken 300 stale;
                PasswordResetConfirm 400 link "hunter2"]
               Examples.world).2 !! "a@x.com" = Some u'
      ∧ User.confirmed u' = true.
Proof.
  apply (confirmed_email_idempotent_one_way TokenCodec.auth_service 100
           (TokenCodec.issue "a@x.com" "email-verification" 86400 0)
           "a@x.com" Examples.alice Examples.world).
  - exact keyed_by_email_example.
  - reflexivity.
  - reflexivity.
  - reflexivity.
Defined.

(** The other direction of the machine: confirming an unconfirmed account
    sets the flag and returns "Email confirmed". *)
Lemma confirmed_email_confirms
    (svc : AuthService) (now : Z) (token e : string) (u : User.t) (w : World) :
  keyed_by_email w →
  get_email_from_token svc now token = inr e →
  users w !! e = Some u →
  User.confirmed u = false →
  auth.confirmed_email svc now token w
  = (inr {| message := "Email confirmed" |},
     with_users (<[e := User.set_confirmed true u]> (users w)) w).
Proof.
  intros Hk Hd Hu Hc. run. rewrite Hd, Hu; simpl. rewrite Hc, Hu.
  by rewrite (Hk e u Hu).
Qed.

(** ** Password reset confirmation *)

(** C3, as the specification states it, fails: a token issued with purpose
    [email-verification], the one that [confirmed_email] accepts for bob's
    account, is accepted by [password_reset_confirm] too, which overwrites
    the password hash of that account. *)
Lemma verification_token_resets_password :
  let link := TokenCodec.issue "b@x.com" "email-verification" 86400 0 in
  (auth.confirmed_email TokenCodec.auth_service 100 link Examples.world).1
  = inr {| message := "Email confirmed" |}
  ∧ let (r, w') :=
      auth.password_reset_confirm TokenCodec.auth_service 100 link "hunter2"
        Examples.world in
    failed r = false
    ∧ r = inr {| message := "Password has been reset successfully" |}
    ∧ User.password <$> users w' !! "b@x.com"
      = Some (TokenCodec.hash "hunter2").
Proof. vm_compute. repeat split. Qed.

(** C3, amended. [password_reset_confirm] decodes the presented token with
    [get_email_from_token], the decoder of [confirmed_email]: it fails on
    exactly the tokens on which [confirmed_email] fails. A token that
    decodes to the email of a stored account overwrites the password hash of
    that account with the hash of the new password; every failure is an
    [HTTPException 400] that leaves the world as it was. *)
Theorem password_reset_confirm_accepts_email_tokens
    (svc : AuthService) (now : Z) (token new_password : string) (w : World) :
  failed (auth.password_reset_confirm svc now token new_password w).1
  = failed (auth.confirmed_email svc now token w).1
  ∧ (∀ e u,
       keyed_by_email w →
       get_email_from_token svc now token = inr e →
       users w !! e = Some u →
       auth.password_reset_confirm svc now token new_password w
       = (inr {| message := "Password has been reset successfully" |},
          with_users
            (<[e := User.set_password (get_password_hash svc new_password) u]>
               (users w)) w))
  ∧ (failed (auth.password_reset_confirm svc now token new_password w).1 = true →
     auth.password_reset_confirm svc now token new_password w
     = (inl (HTTPException HTTP_400_BAD_REQUEST "Invalid token or user"), w)).
Proof.
  split; [| split].
  - run. destruct (get_email_from_token svc now token) as [x | e]; simpl;
      [reflexivity |].
    destruct (users w !! e) as [u |] eqn:Hu; simpl; [| reflexivity].
    rewrite Hu. by destruct (User.confirmed u); simpl; rewrite ?Hu.
  - intros e u Hk Hd Hu. run. rewrite Hd, Hu; simpl. rewrite Hu.
    by rewrite (Hk e u Hu).
  - run. destruct (get_email_from_token svc now token) as [x | e]; simpl;
      [reflexivity |].
    destruct (users w !! e) as [u |] eqn:Hu; simpl; [| reflexivity].
    rewrite Hu. discriminate.
Qed.

Lemma password_reset_confirm_accepts_email_tokens_witness :
  let link := TokenCodec.issue "a@x.com" "email-verification" 86400 0 in
  auth.password_reset_confirm TokenCodec.auth_service 100 link "hunter2"
    Examples.world
  = (inr {| message := "Password has been reset successfully" |},
     with_users
       (<["a@x.com" :=
            User.set_password (TokenCodec.hash "hunter2") Examples.alice]>
          (users Examples.world)) Examples.world)
  ∧ auth.password_reset_confirm TokenCodec.auth_service 100 Examples.R0
      "hunter2" Examples.world
    = (inl (HTTPException 400 "Invalid token or user"), Examples.world).
Proof.
  split.
  - apply (proj1 (proj2 (password_reset_confirm_accepts_email_tokens
                           TokenCodec.auth_service 100
                           (TokenCodec.issue "a@x.com" "email-verification"
                              86400 0)
                           "hunter2" Examples.world))
                 "a@x.com" Examples.alice).
    + exact keyed_by_email_example.
    + reflexivity.
    + reflexivity.
  - apply (proj2 (proj2 (password_reset_confirm_accepts_email_tokens
                           TokenCodec.auth_service 100 Examples.R0
                           "hunter2" Examples.world))).
    reflexivity.
Defined.

(** ** Refresh rotation *)

(** A refresh on an account whose stored token matches: a new pair is
    returned and the new refresh token replaces the stored one. *)
Lemma refresh_match_rotates
    (svc : AuthService) (now : Z) (token e : string) (u : User.t) (w : World) :
  keyed_by_email w →
  decode_refresh_token svc now token = inr e →
  users w !! e = Some u →
  User.refresh_token u = Some token →
  auth.refresh_token svc now token w
  = (inr {| access_token := create_access_token svc now e;
            refresh_token := create_refresh_token svc now e;
            token_type := "bearer" |},
     with_users
       (<[e := User.set_refresh_token (Some (create_refresh_token svc now e)) u]>
          (users w)) w).
Proof.
  intros Hk Hd Hu Hr. run. rewrite Hd, Hu; simpl.
  rewrite bool_decide_eq_true_2 by exact Hr. simpl.
  by rewrite (Hk e u Hu).
Qed.

(** Once the stored token of account [e] is cleared, a refresh with a token
    that can only decode to [e] fails and changes nothing. *)
Lemma refresh_after_clear
    (svc : AuthService) (now : Z) (token e : string) (u : User.t) (w : World) :
  keyed_by_email w →
  users w !! e = Some u →
  User.refresh_token u = None →
  (∀ e', decode_refresh_token svc now token = inr e' → e' = e) →
  failed (auth.refresh_token svc now token w).1 = true
  ∧ (auth.refresh_token svc now token w).2 = w.
Proof.
  intros Hk Hu Hr Hsub. run.
  destruct (decode_refresh_token svc now token) as [x | e'] eqn:Hd; simpl;
    [done |].
  rewrite (Hsub e' eq_refl), Hu; simpl. rewrite Hr; simpl.
  split; [reflexivity |].
  destruct w as [us ts]; unfold with_users; simpl in *. f_equal.
  rewrite (Hk e u Hu). apply insert_id. rewrite Hu. f_equal.
  destruct u; simpl in *. by subst.
Qed.

Lemma serve_refresh_after_clear
    (svc : AuthService) (e : string) (u : User.t) (w : World)
    (allowed : string → Prop) (attempts : list (Z * string)) :
  keyed_by_email w →
  users w !! e = Some u →
  User.refresh_token u = None →
  (∀ t tok e', allowed tok →
               decode_refresh_token svc t tok = inr e' → e' = e) →
  Forall (λ a, allowed a.2) attempts →
  Forall (λ o, failed o = true)
         (serve svc (map (λ a, RefreshToken a.1 a.2) attempts) w).1
  ∧ (serve svc (map (λ a, RefreshToken a.1 a.2) attempts) w).2 = w.
Proof.
  intros Hk Hu Hr Hsub Hall.
  induction Hall as [| [t tok] attempts Htok _ IH]; [by split |].
  rewrite map_cons, serve_cons. cbn [fst snd] in Htok |- *.
  destruct (refresh_after_clear svc t tok e u w Hk Hu Hr
              (λ e', Hsub t tok e' Htok)) as [Hf Hw].
  assert (Hroute : (route svc (RefreshToken t tok) w).2 = w
                   ∧ failed (route svc (RefreshToken t tok) w).1 = true).
  { unfold route, bind, ret.
    destruct (auth.refresh_token svc t tok w) as [[x | v] w'];
      simpl in *; [done | discriminate]. }
  destruct Hroute as [-> Hfail]. destruct IH as [IHf IHw].
  split; [by constructor | exact IHw].
Qed.

(** What [TokenCodec.decode] returns is the text after the second dot. *)
Lemma decode_subject (token purpose : string) (now : Z) (e : string) :
  TokenCodec.decode token purpose now = inr e →
  ∃ a b c, TokenCodec.split_dot token = Some (a, b)
           ∧ TokenCodec.split_dot b = Some (c, e).
Proof.
  unfold TokenCodec.decode.
  destruct (TokenCodec.split_dot token) as [[a b] |] eqn:Ha;
    [| discriminate].
  destruct (TokenCodec.split_dot b) as [[c sub] |] eqn:Hb; [| discriminate].
  destruct (TokenCodec.decimal c 0) as [expiry |]; [| discriminate].
  destruct (String.eqb a purpose && (now <? expiry)%Z); [| discriminate].
  intros [= <-]. exists a, b, c. split; [reflexivity | exact Hb].
Qed.

(** C1, as the specification states it, fails. The first refresh of alice, at
    time 100, returns a pair and stores a new refresh token. The old token
    expires at 604800 and the new one at 604900. Presented again at 604850,
    the old token is refused by the decoder before the handler compares it:
    the stored token is not cleared, and the attempt with the new token that
    follows is accepted. And a refresh at time 0, the time at which the old
    token was issued, issues that same token again, so that presenting the
    old value once more is accepted. *)
Lemma expired_replay_keeps_rotated_token :
  let R := Examples.R0 in
  let R' := TokenCodec.issue "a@x.com" "refresh" 604800 100 in
  (let (r1, w1) :=
     auth.refresh_token TokenCodec.auth_service 100 R Examples.world in
   let (r2, w2) := auth.refresh_token TokenCodec.auth_service 604850 R w1 in
   let (r3, w3) := auth.refresh_token TokenCodec.auth_service 604860 R' w2 in
   r1 = inr {| access_token := TokenCodec.issue "a@x.com" "access" 900 100;
               refresh_token := R';
               token_type := "bearer" |}
   ∧ R' ≠ R
   ∧ User.refresh_token <$> users w1 !! "a@x.com" = Some (Some R')
   ∧ r2 = inl TokenCodec.InvalidTokenError
   ∧ User.refresh_token <$> users w2 !! "a@x.com" = Some (Some R')
   ∧ failed r3 = false)
  ∧ (let (r1, w1) :=
       auth.refresh_token TokenCodec.auth_service 0 R Examples.world in
     let (r2, w2) := auth.refresh_token TokenCodec.auth_service 0 R w1 in
     failed r1 = false
     ∧ User.refresh_token <$> users w1 !! "a@x.com" = Some (Some R)
     ∧ failed r2 = false).
Proof. vm_compute. repeat split. discriminate. Qed.

(** C1, amended. Rotation. Account [e] stores the refresh token [R]; a
    refresh with [R] at [t1] returns a pair and stores its refresh token.
    When that token differs from [R] and [R] still decodes to the account at
    the time it is presented again, presenting [R] ends with
    [HTTPException 401] and the refresh token read from the account
    afterwards is [None]. From then on every refresh attempt with the old or
    with the new token, at any time and in any number, fails and leaves the
    stored token cleared; the two tokens decode, when they do, to no other
    account. *)
Theorem refresh_rotation
    (svc : AuthService) (t1 t2 : Z) (R e : string) (u : User.t) (w0 : World)
    (attempts : list (Z * string)) :
  keyed_by_email w0 →
  users w0 !! e = Some u →
  User.refresh_token u = Some R →
  decode_refresh_token svc t1 R = inr e →
  decode_refresh_token svc t2 R = inr e →
  create_refresh_token svc t1 e ≠ R →
  (∀ t tok e', tok = R ∨ tok = create_refresh_token svc t1 e →
               decode_refresh_token svc t tok = inr e' → e' = e) →
  Forall (λ a, a.2 = R ∨ a.2 = create_refresh_token svc t1 e) attempts →
  let (r1, w1) := auth.refresh_token svc t1 R w0 in
  let (r2, w2) := auth.refresh_token svc t2 R w1 in
  let (os, w3) := serve svc (map (λ a, RefreshToken a.1 a.2) attempts) w2 in
  r1 = inr {| access_token := create_access_token svc t1 e;
              refresh_token := create_refresh_token svc t1 e;
              token_type := "bearer" |}
  ∧ User.refresh_token <$> users w1 !! e
    = Some (Some (create_refresh_token svc t1 e))
  ∧ r2 = inl (HTTPException HTTP_401_UNAUTHORIZED "Invalid refresh token")
  ∧ User.refresh_token <$> users w2 !! e = Some None
  ∧ users w2 !! e
    = Some (User.mk (User.id u) (User.username u) (User.email u)
                    (User.password u) (User.confirmed u) None)
  ∧ Forall (λ o, failed o = true) os
  ∧ User.refresh_token <$> users w3 !! e = Some None
  ∧ w3 = w2.
Proof.
  intros Hk Hu Hr Hd1 Hd2 Hnew Hsub Hall.
  rewrite (refresh_match_rotates svc t1 R e u w0 Hk Hd1 Hu Hr).
  set (R' := create_refresh_token svc t1 e) in *.
  set (w1 := with_users (<[e := User.set_refresh_token (Some R') u]> (users w0))
                        w0).
  assert (Hu1 : users w1 !! e = Some (User.set_refresh_token (Some R') u))
    by apply lookup_insert_eq.
  assert (Hk1 : keyed_by_email w1).
  { apply (touches_keyed w0 w1); [| exact Hk]. right.
    exists e, u, (User.set_refresh_token (Some R') u).
    split; [exact Hu |]. split; [constructor |].
    by rewrite (Hk e u Hu). }
  assert (Hne : User.refresh_token (User.set_refresh_token (Some R') u)
                ≠ Some R) by (simpl; congruence).
  pose proof (touches_keyed w1 _ (route_touches svc (RefreshToken t2 R) w1) Hk1)
    as Hk2.
  unfold route, bind, ret in Hk2.
  rewrite (refresh_mismatch_run svc t2 R e _ w1 Hk1 Hd2 Hu1 Hne) in Hk2 |- *.
  simpl in Hk2.
  set (w2 := with_users _ w1) in *.
  assert (Hu2 : users w2 !! e
                = Some (User.mk (User.id u) (User.username u) (User.email u)
                          (User.password u) (User.confirmed u) None))
    by apply lookup_insert_eq.
  destruct (serve_refresh_after_clear svc e _ w2
              (λ tok, tok = R ∨ tok = R') attempts Hk2 Hu2 eq_refl Hsub Hall)
    as [Hf Hw].
  destruct (serve svc (map (λ a, RefreshToken a.1 a.2) attempts) w2)
    as [os w3].
  simpl in Hf, Hw. subst w3.
  split; [reflexivity |]. split; [by rewrite Hu1 |].
  split; [reflexivity |]. split; [by rewrite Hu2 |].
  split; [exact Hu2 |]. split; [exact Hf |].
  split; [by rewrite Hu2 | reflexivity].
Qed.

Lemma refresh_rotation_witness :
  let R := Examples.R0 in
  let R' := TokenCodec.issue "a@x.com" "refresh" 604800 100 in
  let (r1, w1) :=
    auth.refresh_token TokenCodec.auth_service 100 R Examples.world in
  let (r2, w2) := auth.refresh_token TokenCodec.auth_service 200 R w1 in
  let (os, w3) :=
    serve TokenCodec.auth_service
      [RefreshToken 300 R; RefreshToken 400 R'; RefreshToken 500 R] w2 in
  r1 = inr {| access_token := TokenCodec.issue "a@x.com" "access" 900 100;
              refresh_token := R';
              token_type := "bearer" |}
  ∧ User.refresh_token <$> users w1 !! "a@x.com" = Some (Some R')
  ∧ r2 = inl (HTTPException 401 "Invalid refresh token")
  ∧ User.refresh_token <$> users w2 !! "a@x.com" = Some None
  ∧ users w2 !! "a@x.com"
    = Some (User.mk 1 "alice" "a@x.com" (TokenCodec.hash "pw") true None)
  ∧ Forall (λ o, failed o = true) os
  ∧ User.refresh_token <$> users w3 !! "a@x.com" = Some None
  ∧ w3 = w2.
Proof.
  apply (refresh_rotation TokenCodec.auth_service 100 200 Examples.R0
           "a@x.com" Examples.alice Examples.world
           [(300, Examples.R0);
            (400, TokenCodec.issue "a@x.com" "refresh" 604800 100);
            (500, Examples.R0)]).
  - exact keyed_by_email_example.
  - reflexivity.
  - reflexivity.
  - reflexivity.
  - reflexivity.
  - vm_compute. discriminate.
  - intros t tok e' [-> | ->] Hdec;
      apply decode_subject in Hdec as (a & b & c & Ha & Hb);
      vm_compute in Ha; injection Ha as <- <-;
      vm_compute in Hb; congruence.
  - repeat (constructor; [first [left; reflexivity | right; reflexivity] |]).
    constructor.
Defined.

(** After the token is cleared, a login with the password of a confirmed
    account stores a fresh refresh token again. *)
Lemma login_stores_refresh_token
    (svc : AuthService) (now : Z) (email submitted : string)
    (u : User.t) (w : World) :
  keyed_by_email w →
  users w !! email = Some u →
  User.confirmed u = true →
  verify_password svc submitted (User.password u) = true →
  auth.login svc now {| form_username := email; form_password := submitted |} w
  = (inr {| access_token := create_access_token svc now email;
            refresh_token := create_refresh_token svc now email;
            token_type := "bearer" |},
     with_users
       (<[email :=
            User.set_refresh_token (Some (create_refresh_token svc now email))
              u]> (users w)) w).
Proof.
  intros Hk Hu Hc Hv. run. rewrite Hu; simpl. rewrite Hc; simpl.
  rewrite Hv; simpl. by rewrite (Hk email u Hu).
Qed.

(** * Properties of the contact repository *)

(** ** Upcoming birthdays *)

Lemma get_upcoming_birthdays_spec today db user c :
  c ∈ contacts.get_upcoming_birthdays today db user
  ↔ c ∈ rows db
    ∧ Contact.user_id c = User.id user
    ∧ String.leb (date.to_char_MM_DD today)
                 (date.to_char_MM_DD (Contact.birthday c)) = true
    ∧ String.leb (date.to_char_MM_DD (Contact.birthday c))
                 (date.to_char_MM_DD (date.add_days 7 today)) = true.
Proof.
  unfold contacts.get_upcoming_birthdays, contacts.owned_by.
  rewrite list_elem_of_filter, !andb_true_iff, bool_decide_eq_true.
  tauto.
Qed.

(** A window inside one year, across a month boundary: the birthday on the
    2nd of February is found on the 28th of January. *)
Example upcoming_birthdays_across_months :
  let feb2 := Contact.mk 9 "Erin" "Doe" "erin@x.com" "555-0102"
                         (date.mk 1992 2 2) None 1 in
  contacts.get_upcoming_birthdays (date.mk 2025 1 28) (mkSession [feb2] 10)
    Examples.alice = [feb2].
Proof. reflexivity. Qed.

(** No text that starts with ["1"] or later is at most a text that starts
    with ["0"]. *)
Lemma leb_december_january (a b s : string) :
  String.leb ("1" ++ a) s = true → String.leb s ("0" ++ b) = false.
Proof.
  destruct s as [| c s]; [discriminate |].
  unfold String.leb; simpl.
  destruct c as [[] [] [] [] [] [] [] []]; simpl; try discriminate;
    reflexivity.
Qed.

(** On the 28th of December the query is empty whatever the table holds:
    both bounds are compared as [MM-DD] texts, and ["12-28"] is above
    ["01-04"]. *)
Lemma upcoming_birthdays_december_empty (y : Z) db user :
  contacts.get_upcoming_birthdays (date.mk y 12 28) db user = [].
Proof.
  unfold contacts.get_upcoming_birthdays.
  induction (rows db) as [| c l IH]; [reflexivity |].
  rewrite filter_cons_False; [exact IH |].
  rewrite !andb_true_iff. intros [[Hlo Hhi] _].
  change (date.to_char_MM_DD (date.mk y 12 28)) with "12-28" in Hlo.
  change (date.to_char_MM_DD (date.add_days 7 (date.mk y 12 28)))
    with "01-04" in Hhi.
  apply (leb_december_january "2-28" "1-04") in Hlo.
  change ("0" ++ "1-04") with "01-04" in Hlo. congruence.
Qed.

(** C8. On 2024-12-28 the 7-day window runs to 2025-01-04. Carol, a contact
    of the caller, has her birthday on the 2nd of January, inside the
    window, and the query returns no contact. *)
Theorem upcoming_birthdays_miss_new_year :
  let today := date.mk 2024 12 28 in
  date.add_days 7 today = date.mk 2025 1 4
  ∧ contacts.owned_by Examples.alice ContactExamples.carol = true
  ∧ birthday_within_7_days today (Contact.birthday ContactExamples.carol)
    = true
  ∧ contacts.get_upcoming_birthdays today ContactExamples.session
      Examples.alice = [].
Proof. vm_compute. repeat split. Qed.

(** ** Ownership *)

Lemma selected_owned cid user c :
  contacts.selected cid user c = true →
  Contact.id c = cid ∧ Contact.user_id c = User.id user.
Proof.
  unfold contacts.selected, contacts.owned_by.
  rewrite andb_true_iff, !bool_decide_eq_true. tauto.
Qed.

Lemma scalar_one_or_none_Some {A} (l : list A) x :
  scalar_one_or_none l = inr (Some x) → l = [x].
Proof. destruct l as [| y [| z l]]; simpl; congruence. Qed.

Lemma get_contacts_owned ilike limit offset fn ln em db user c :
  c ∈ contacts.get_contacts ilike limit offset fn ln em db user →
  c ∈ rows db ∧ Contact.user_id c = User.id user.
Proof.
  unfold contacts.get_contacts. intros Hc.
  apply subseteq_take, subseteq_drop, list_elem_of_filter in Hc.
  destruct Hc as [Hs Hin]. split; [exact Hin |].
  destruct (str_truthy fn || str_truthy ln || str_truthy em).
  - apply andb_true_iff in Hs as [Ho _]. by apply bool_decide_eq_true in Ho.
  - by apply bool_decide_eq_true in Hs.
Qed.

Lemma get_contact_owned cid db user c :
  contacts.get_contact cid db user = inr (Some c) →
  c ∈ rows db ∧ Contact.id c = cid ∧ Contact.user_id c = User.id user.
Proof.
  unfold contacts.get_contact. intros H%scalar_one_or_none_Some.
  assert (Hin : c ∈ filter (λ c, contacts.selected cid user c = true) (rows db))
    by (rewrite H; apply list_elem_of_here).
  apply list_elem_of_filter in Hin as [Hs Hin].
  split; [exact Hin |]. by apply selected_owned.
Qed.

(** Rewriting or removing the selected rows does not touch the rows of the
    other users. *)
Lemma foreign_rows_update cid user body (l : list Contact.t) :
  filter (λ c, Contact.user_id c ≠ User.id user)
         (map (λ c, if contacts.selected cid user c
                    then contacts.apply_update body c else c) l)
  = filter (λ c, Contact.user_id c ≠ User.id user) l.
Proof.
  induction l as [| c l IH]; [reflexivity |].
  rewrite map_cons, !filter_cons, IH.
  destruct (contacts.selected cid user c) eqn:Hs; [| reflexivity].
  apply selected_owned in Hs as [_ Ho]. simpl.
  repeat case_decide; congruence.
Qed.

Lemma foreign_rows_delete cid user (l : list Contact.t) :
  filter (λ c, Contact.user_id c ≠ User.id user)
         (filter (λ c, contacts.selected cid user c = false) l)
  = filter (λ c, Contact.user_id c ≠ User.id user) l.
Proof.
  induction l as [| c l IH]; [reflexivity |].
  rewrite (filter_cons _ c l).
  destruct (contacts.selected cid user c) eqn:Hs.
  - apply selected_owned in Hs as [_ Ho].
    rewrite decide_False by discriminate.
    rewrite (filter_cons_False _ c l) by (intros Hne; contradiction).
    exact IH.
  - rewrite decide_True by reflexivity.
    rewrite !(filter_cons (λ c, Contact.user_id c ≠ User.id user)), IH.
    reflexivity.
Qed.

(** No selected row: the three operations by id find nothing. *)
Lemma selected_none cid user (l : list Contact.t) :
  (∀ c, c ∈ l → Contact.id c = cid → Contact.user_id c ≠ User.id user) →
  filter (λ c, contacts.selected cid user c = true) l = [].
Proof.
  intros Hother. induction l as [| c l IH]; [reflexivity |].
  rewrite filter_cons_False.
  - apply IH. intros c' Hc'. apply Hother. by right.
  - intros Hs. apply selected_owned in Hs as [Hid Ho].
    exact (Hother c (list_elem_of_here c l) Hid Ho).
Qed.

(** C9. Ownership. Every contact that a query returns is a row of the user
    passed to it; a created contact belongs to that user and is appended to
    the table; update and delete leave the rows of every other user as they
    were and return a contact of that user, if any. For an id under which
    the table holds only rows of other users, get, update and delete return
    [None] and the table does not change. *)
Theorem contacts_scoped_by_owner
    (ilike : string → string → bool) (db : Session) (user : User.t) :
  (∀ limit offset first_name last_name email c,
     c ∈ contacts.get_contacts ilike limit offset first_name last_name email
           db user →
     c ∈ rows db ∧ Contact.user_id c = User.id user)
  ∧ (∀ today c,
       c ∈ contacts.get_upcoming_birthdays today db user →
       c ∈ rows db ∧ Contact.user_id c = User.id user)
  ∧ (∀ contact_id c,
       contacts.get_contact contact_id db user = inr (Some c) →
       c ∈ rows db ∧ Contact.user_id c = User.id user)
  ∧ (∀ body,
       let (c, db') := contacts.create_contact body db user in
       Contact.user_id c = User.id user ∧ rows db' = (rows db ++ [c])%list)
  ∧ (∀ contact_id body,
       let (r, db') := contacts.update_contact contact_id body db user in
       foreign_rows user db' = foreign_rows user db
       ∧ ∀ c, r = inr (Some c) → Contact.user_id c = User.id user)
  ∧ (∀ contact_id,
       let (r, db') := contacts.delete_contact contact_id db user in
       foreign_rows user db' = foreign_rows user db
       ∧ ∀ c, r = inr (Some c) →
              c ∈ rows db ∧ Contact.user_id c = User.id user)
  ∧ (∀ contact_id,
       (∀ c, c ∈ rows db → Contact.id c = contact_id →
             Contact.user_id c ≠ User.id user) →
       contacts.get_contact contact_id db user = inr None
       ∧ (∀ body,
            contacts.update_contact contact_id body db user = (inr None, db))
       ∧ contacts.delete_contact contact_id db user = (inr None, db)).
Proof.
  split; [| split; [| split; [| split; [| split; [| split]]]]].
  - intros. by eapply get_contacts_owned.
  - intros today c Hc. apply get_upcoming_birthdays_spec in Hc. tauto.
  - intros cid c Hc. apply get_contact_owned in Hc. tauto.
  - intros body. simpl. done.
  - intros cid body. unfold contacts.update_contact.
    destruct (scalar_one_or_none _) as [x | [c0 |]] eqn:Hsel;
      [by split | | by split].
    split.
    + unfold foreign_rows; simpl. apply foreign_rows_update.
    + intros c [= <-]. simpl.
      destruct (get_contact_owned cid db user c0 Hsel) as (_ & _ & Ho).
      exact Ho.
  - intros cid. unfold contacts.delete_contact.
    destruct (scalar_one_or_none _) as [x | [c0 |]] eqn:Hsel;
      [by split | | by split].
    split.
    + unfold foreign_rows; simpl. apply foreign_rows_delete.
    + intros c [= <-].
      destruct (get_contact_owned cid db user c0 Hsel) as (Hin & _ & Ho).
      by split.
  - intros cid Hother.
    unfold contacts.get_contact, contacts.update_contact,
      contacts.delete_contact.
    rewrite (selected_none cid user (rows db) Hother). simpl. done.
Qed.

Lemma contacts_scoped_by_owner_witness :
  (ContactExamples.carol ∈ rows ContactExamples.session
   ∧ Contact.user_id ContactExamples.carol = User.id Examples.alice)
  ∧ contacts.get_contact 8 ContactExamples.session Examples.alice = inr None
  ∧ (∀ body,
       contacts.update_contact 8 body ContactExamples.session Examples.alice
       = (inr None, ContactExamples.session))
  ∧ contacts.delete_contact 8 ContactExamples.session Examples.alice
    = (inr None, ContactExamples.session).
Proof.
  destruct (contacts_scoped_by_owner ContactExamples.ilike
              ContactExamples.session Examples.alice)
    as (Hlist & _ & _ & _ & _ & _ & Hother).
  split.
  - apply (Hlist 10%nat 0%nat (Some "CAR") None None).
    vm_compute. left.
  - apply (Hother 8). intros c Hc Hid.
    apply elem_of_cons in Hc as [-> | Hc]; [discriminate Hid |].
    apply elem_of_cons in Hc as [-> | Hc]; [discriminate |].
    by apply elem_of_nil in Hc.
Defined.

(** * Further properties of the authentication routes *)

(** ** Login *)

(** A login that succeeds returns the pair it issued for the email of the
    account and stores that refresh token; presenting the returned refresh
    token afterwards, while it decodes to that email, is accepted. *)
Theorem login_then_refresh
    (svc : AuthService) (now later : Z) (email submitted : string)
    (u : User.t) (w : World) :
  keyed_by_email w →
  users w !! email = Some u →
  User.confirmed u = true →
  verify_password svc submitted (User.password u) = true →
  decode_refresh_token svc later (create_refresh_token svc now email)
  = inr email →
  let (r, w') :=
    auth.login svc now
      {| form_username := email; form_password := submitted |} w in
  r = inr {| access_token := create_access_token svc now email;
             refresh_token := create_refresh_token svc now email;
             token_type := "bearer" |}
  ∧ User.refresh_token <$> users w' !! email
    = Some (Some (create_refresh_token svc now email))
  ∧ (auth.refresh_token svc later (create_refresh_token svc now email) w').1
    = inr {| access_token := create_access_token svc later email;
             refresh_token := create_refresh_token svc later email;
             token_type := "bearer" |}.
Proof.
  intros Hk Hu Hc Hv Hd.
  rewrite (login_stores_refresh_token svc now email submitted u w Hk Hu Hc Hv).
  set (tok := create_refresh_token svc now email) in *.
  set (w' := with_users _ w).
  assert (Hu' : users w' !! email = Some (User.set_refresh_token (Some tok) u))
    by apply lookup_insert_eq.
  assert (Hk' : keyed_by_email w').
  { apply (touches_keyed w w'); [| exact Hk]. right.
    exists email, u, (User.set_refresh_token (Some tok) u).
    split; [exact Hu |]. split; [constructor |].
    by rewrite (Hk email u Hu). }
  split; [reflexivity |]. split; [by rewrite Hu' |].
  by rewrite (refresh_match_rotates svc later tok email _ w' Hk' Hd Hu').
Qed.

Lemma login_then_refresh_witness :
  let (r, w') :=
    auth.login TokenCodec.auth_service 100
      {| form_username := "a@x.com"; form_password := "pw" |}
      Examples.world in
  r = inr {| access_token := "access.1000.a@x.com";
             refresh_token := "refresh.604900.a@x.com";
             token_type := "bearer" |}
  ∧ User.refresh_token <$> users w' !! "a@x.com"
    = Some (Some "refresh.604900.a@x.com")
  ∧ (auth.refresh_token TokenCodec.auth_service 200
       "refresh.604900.a@x.com" w').1
    = inr {| access_token := "access.1100.a@x.com";
             refresh_token := "refresh.605000.a@x.com";
             token_type := "bearer" |}.
Proof.
  apply (login_then_refresh TokenCodec.auth_service 100 200 "a@x.com" "pw"
           Examples.alice Examples.world).
  - exact keyed_by_email_example.
  - reflexivity.
  - reflexivity.
  - reflexivity.
  - reflexivity.
Defined.

(** A login overwrites the stored refresh token: the token stored before the
    login, when it differs from the new one and still decodes to the
    account, is refused afterwards with 401. *)
Theorem login_revokes_previous_token
    (svc : AuthService) (now later : Z) (email submitted old : string)
    (u : User.t) (w : World) :
  keyed_by_email w →
  users w !! email = Some u →
  User.confirmed u = true →
  verify_password svc submitted (User.password u) = true →
  User.refresh_token u = Some old →
  create_refresh_token svc now email ≠ old →
  decode_refresh_token svc later old = inr email →
  (auth.refresh_token svc later old
     (auth.login svc now
        {| form_username := email; form_password := submitted |} w).2).1
  = inl (HTTPException HTTP_401_UNAUTHORIZED "Invalid refresh token").
Proof.
  intros Hk Hu Hc Hv Hold Hnew Hd.
  rewrite (login_stores_refresh_token svc now email submitted u w Hk Hu Hc Hv).
  simpl. set (tok := create_refresh_token svc now email) in *.
  set (w' := with_users _ w).
  assert (Hu' : users w' !! email = Some (User.set_refresh_token (Some tok) u))
    by apply lookup_insert_eq.
  assert (Hk' : keyed_by_email w').
  { apply (touches_keyed w w'); [| exact Hk]. right.
    exists email, u, (User.set_refresh_token (Some tok) u).
    split; [exact Hu |]. split; [constructor |].
    by rewrite (Hk email u Hu). }
  rewrite (refresh_mismatch_run svc later old email _ w' Hk' Hd Hu');
    [reflexivity |].
  simpl. congruence.
Qed.

Lemma login_revokes_previous_token_witness :
  (auth.refresh_token TokenCodec.auth_service 200 Examples.R0
     (auth.login TokenCodec.auth_service 100
        {| form_username := "a@x.com"; form_password := "pw" |}
        Examples.world).2).1
  = inl (HTTPException 401 "Invalid refresh token").
Proof.
  apply (login_revokes_previous_token TokenCodec.auth_service 100 200
           "a@x.com" "pw" Examples.R0 Examples.alice Examples.world).
  - exact keyed_by_email_example.
  - reflexivity.
  - reflexivity.
  - reflexivity.
  - reflexivity.
  - vm_compute. discriminate.
  - reflexivity.
Defined.

(** ** Refresh *)

(** Whatever the outcome, [refresh_token] changes no account other than the
    one of the subject that the token decodes to, and queues no task. *)
Theorem refresh_touches_only_subject
    (svc : AuthService) (now : Z) (token e k : string) (w : World) :
  keyed_by_email w →
  decode_refresh_token svc now token = inr e →
  k ≠ e →
  users (auth.refresh_token svc now token w).2 !! k = users w !! k
  ∧ background_tasks (auth.refresh_token svc now token w).2
    = background_tasks w.
Proof.
  intros Hk Hd Hne. run. rewrite Hd; simpl.
  destruct (users w !! e) as [u |] eqn:Hu; simpl; [| done].
  rewrite (Hk e u Hu).
  destruct (bool_decide (User.refresh_token u = Some token)); simpl;
    (split; [by apply lookup_insert_ne | reflexivity]).
Qed.

Lemma refresh_touches_only_subject_witness :
  users (auth.refresh_token TokenCodec.auth_service 100 Examples.R0
           Examples.world).2 !! "b@x.com"
  = users Examples.world !! "b@x.com"
  ∧ background_tasks (auth.refresh_token TokenCodec.auth_service 100
                        Examples.R0 Examples.world).2
    = background_tasks Examples.world.
Proof.
  apply (refresh_touches_only_subject TokenCodec.auth_service 100 Examples.R0
           "a@x.com" "b@x.com" Examples.world).
  - exact keyed_by_email_example.
  - reflexivity.
  - discriminate.
Defined.

(** A token that does not decode: the exception of the decoder is the
    outcome of [refresh_token], whatever the account table holds, and no
    stored token is cleared. *)
Theorem refresh_undecodable_changes_nothing
    (svc : AuthService) (now : Z) (token : string) (x : Exception) (w : World) :
  decode_refresh_token svc now token = inl x →
  auth.refresh_token svc now token w = (inl x, w).
Proof. intros Hd. run. by rewrite Hd. Qed.

Lemma refresh_undecodable_changes_nothing_witness :
  auth.refresh_token TokenCodec.auth_service 700000 Examples.R0 Examples.world
  = (inl TokenCodec.InvalidTokenError, Examples.world).
Proof.
  apply (refresh_undecodable_changes_nothing TokenCodec.auth_service 700000
           Examples.R0 TokenCodec.InvalidTokenError Examples.world).
  reflexivity.
Defined.

(** ** Email confirmation *)

(** A confirmation that fails leaves the world as it was; the failure is the
    exception of the decoder or the 400 for a subject without account. *)
Theorem confirmed_email_failure_unchanged
    (svc : AuthService) (now : Z) (token : string) (w w' : World)
    (x : Exception) :
  auth.confirmed_email svc now token w = (inl x, w') →
  w' = w
  ∧ (get_email_from_token svc now token = inl x
     ∨ x = HTTPException HTTP_400_BAD_REQUEST "Verification error").
Proof.
  run. destruct (get_email_from_token svc now token) as [y | e]; simpl.
  - intros [= <- <-]. by split; [| left].
  - destruct (users w !! e) as [u |] eqn:Hu; simpl.
    + destruct (User.confirmed u); simpl; rewrite ?Hu; discriminate.
    + intros [= <- <-]. by split; [| right].
Qed.

Lemma confirmed_email_failure_unchanged_witness :
  let link := TokenCodec.issue "ghost@x.com" "email-verification" 86400 0 in
  auth.confirmed_email TokenCodec.auth_service 100 link Examples.world
  = (inl (HTTPException 400 "Verification error"), Examples.world)
  ∧ Examples.world = Examples.world
  ∧ (get_email_from_token TokenCodec.auth_service 100 link
     = inl (HTTPException 400 "Verification error")
     ∨ HTTPException 400 "Verification error"
       = HTTPException HTTP_400_BAD_REQUEST "Verification error").
Proof.
  split; [reflexivity |].
  apply (confirmed_email_failure_unchanged TokenCodec.auth_service 100
           (TokenCodec.issue "ghost@x.com" "email-verification" 86400 0)
           Examples.world Examples.world
           (HTTPException 400 "Verification error")).
  reflexivity.
Defined.

Lemma confirmed_email_already
    (svc : AuthService) (now : Z) (token e : string) (u : User.t) (w : World) :
  get_email_from_token svc now token = inr e →
  users w !! e = Some u →
  User.confirmed u = true →
  auth.confirmed_email svc now token w
  = (inr {| message := "Your email is already confirmed" |}, w).
Proof. intros Hd Hu Hc. run. rewrite Hd, Hu; simpl. by rewrite Hc. Qed.

(** Confirming twice with the same link: the first call sets the flag and
    answers "Email confirmed", the second answers "Your email is already
    confirmed" and leaves the world of the first. *)
Theorem confirmed_email_twice
    (svc : AuthService) (t1 t2 : Z) (token e : string) (u : User.t)
    (w : World) :
  keyed_by_email w →
  get_email_from_token svc t1 token = inr e →
  get_email_from_token svc t2 token = inr e →
  users w !! e = Some u →
  User.confirmed u = false →
  let (r1, w1) := auth.confirmed_email svc t1 token w in
  let (r2, w2) := auth.confirmed_email svc t2 token w1 in
  r1 = inr {| message := "Email confirmed" |}
  ∧ users w1 !! e = Some (User.set_confirmed true u)
  ∧ r2 = inr {| message := "Your email is already confirmed" |}
  ∧ w2 = w1.
Proof.
  intros Hk Hd1 Hd2 Hu Hc.
  rewrite (confirmed_email_confirms svc t1 token e u w Hk Hd1 Hu Hc).
  set (w1 := with_users _ w).
  assert (Hu1 : users w1 !! e = Some (User.set_confirmed true u))
    by apply lookup_insert_eq.
  by rewrite (confirmed_email_already svc t2 token e _ w1 Hd2 Hu1 eq_refl).
Qed.

Lemma confirmed_email_twice_witness :
  let link := TokenCodec.issue "b@x.com" "email-verification" 86400 0 in
  let (r1, w1) :=
    auth.confirmed_email TokenCodec.auth_service 100 link Examples.world in
  let (r2, w2) := auth.confirmed_email TokenCodec.auth_service 200 link w1 in
  r1 = inr {| message := "Email confirmed" |}
  ∧ users w1 !! "b@x.com" = Some (User.set_confirmed true Examples.bob)
  ∧ r2 = inr {| message := "Your email is already confirmed" |}
  ∧ w2 = w1.
Proof.
  apply (confirmed_email_twice TokenCodec.auth_service 100 200
           (TokenCodec.issue "b@x.com" "email-verification" 86400 0)
           "b@x.com" Examples.bob Examples.world).
  - exact keyed_by_email_example.
  - reflexivity.
  - reflexivity.
  - reflexivity.
  - reflexivity.
Defined.

(** ** Email confirmation requests *)

(** For an email with an account: a confirmed account gets the "already
    confirmed" message and no task; an unconfirmed one gets exactly one
    [send_email] task to its address with the base URL. The account table is
    the same afterwards in both cases. *)
Theorem request_email_existing
    (base_url : string) (body : RequestEmail) (u : User.t) (w : World) :
  users w !! body_email body = Some u →
  auth.request_email base_url body w
  = if User.confirmed u
    then (inr {| message := "Your email is already confirmed" |}, w)
    else (inr {| message := "Check your email for confirmation." |},
          mkWorld (users w)
            (background_tasks w
             ++ [send_email (User.email u) (User.username u)
                   (Some base_url) None])).
Proof.
  intros Hu. run. rewrite Hu; simpl. by destruct (User.confirmed u).
Qed.

Lemma request_email_existing_witness :
  auth.request_email "http://testserver/" {| body_email := "b@x.com" |}
    Examples.world
  = (inr {| message := "Check your email for confirmation." |},
     mkWorld (users Examples.world)
       [send_email "b@x.com" "bob" (Some "http://testserver/") None]).
Proof.
  apply (request_email_existing "http://testserver/"
           {| body_email := "b@x.com" |} Examples.bob Examples.world).
  reflexivity.
Defined.

(** ** Password reset *)

(** A password reset changes the password hash alone: the refresh token
    stored on the account, its confirmation flag, its name and id stay, the
    other accounts stay, and the refresh token stored before the reset is
    still accepted after it. *)
Theorem password_reset_keeps_session
    (svc : AuthService) (now later : Z) (token new_password e R : string)
    (u : User.t) (w : World) :
  keyed_by_email w →
  get_email_from_token svc now token = inr e →
  users w !! e = Some u →
  User.refresh_token u = Some R →
  decode_refresh_token svc later R = inr e →
  let w' := (auth.password_reset_confirm svc now token new_password w).2 in
  users w' !! e
  = Some (User.mk (User.id u) (User.username u) (User.email u)
                  (get_password_hash svc new_password)
                  (User.confirmed u) (Some R))
  ∧ (∀ k, k ≠ e → users w' !! k = users w !! k)
  ∧ failed (auth.refresh_token svc later R w').1 = false.
Proof.
  intros Hk Hd Hu HR Hdr. simpl.
  assert (Hrun : auth.password_reset_confirm svc now token new_password w
                 = (inr {| message := "Password has been reset successfully" |},
                    with_users
                      (<[e := User.set_password
                                (get_password_hash svc new_password) u]>
                         (users w)) w)).
  { run. rewrite Hd, Hu; simpl. rewrite Hu. by rewrite (Hk e u Hu). }
  rewrite Hrun. simpl.
  set (u' := User.set_password (get_password_hash svc new_password) u).
  set (w' := with_users (<[e := u']> (users w)) w).
  assert (Hu' : users w' !! e = Some u') by apply lookup_insert_eq.
  assert (Hk' : keyed_by_email w').
  { apply (touches_keyed w w'); [| exact Hk]. right.
    exists e, u, u'. split; [exact Hu |]. split; [constructor |].
    by rewrite (Hk e u Hu). }
  split; [| split].
  - change (users w' !! e = Some
              (User.mk (User.id u) (User.username u) (User.email u)
                 (get_password_hash svc new_password) (User.confirmed u)
                 (Some R))).
    rewrite Hu'. unfold u', User.set_password. by rewrite HR.
  - intros k Hne. by apply lookup_insert_ne.
  - change (failed (auth.refresh_token svc later R w').1 = false).
    by rewrite (refresh_match_rotates svc later R e u' w' Hk' Hdr Hu' HR).
Qed.

Lemma password_reset_keeps_session_witness :
  let link := TokenCodec.issue "a@x.com" "email-verification" 86400 0 in
  let w' :=
    (auth.password_reset_confirm TokenCodec.auth_service 100 link "hunter2"
       Examples.world).2 in
  users w' !! "a@x.com"
  = Some (User.mk 1 "alice" "a@x.com" (TokenCodec.hash "hunter2") true
                  (Some Examples.R0))
  ∧ (∀ k, k ≠ "a@x.com" → users w' !! k = users Examples.world !! k)
  ∧ failed (auth.refresh_token TokenCodec.auth_service 200 Examples.R0 w').1
    = false.
Proof.
  apply (password_reset_keeps_session TokenCodec.auth_service 100 200
           (TokenCodec.issue "a@x.com" "email-verification" 86400 0)
           "hunter2" "a@x.com" Examples.R0 Examples.alice Examples.world).
  - exact keyed_by_email_example.
  - reflexivity.
  - reflexivity.
  - reflexivity.
  - reflexivity.
Defined.

(** After a password reset of a confirmed account, a login with the new
    password is accepted when the verifier recognises the hash of the new
    password, and a login with a password that the verifier rejects against
    that hash, the former password for one, is refused with 401. *)
Theorem password_reset_then_login
    (svc : AuthService) (now later : Z)
    (token new_password other e : string) (u : User.t) (w : World) :
  keyed_by_email w →
  get_email_from_token svc now token = inr e →
  users w !! e = Some u →
  User.confirmed u = true →
  verify_password svc new_password (get_password_hash svc new_password)
  = true →
  verify_password svc other (get_password_hash svc new_password) = false →
  let w' := (auth.password_reset_confirm svc now token new_password w).2 in
  failed (auth.login svc later
            {| form_username := e; form_password := new_password |} w').1
  = false
  ∧ (auth.login svc later
       {| form_username := e; form_password := other |} w').1
    = inl (HTTPException HTTP_401_UNAUTHORIZED "Invalid password").
Proof.
  intros Hk Hd Hu Hc Hnew Hother. simpl.
  assert (Hrun : (auth.password_reset_confirm svc now token new_password w).2
                 = with_users
                     (<[e := User.set_password
                               (get_password_hash svc new_password) u]>
                        (users w)) w).
  { run. rewrite Hd, Hu; simpl. rewrite Hu. by rewrite (Hk e u Hu). }
  rewrite Hrun. split.
  - run. rewrite lookup_insert_eq; simpl. rewrite Hc; simpl.
    by rewrite Hnew.
  - run. rewrite lookup_insert_eq; simpl. rewrite Hc; simpl.
    by rewrite Hother.
Qed.

Lemma password_reset_then_login_witness :
  let link := TokenCodec.issue "a@x.com" "email-verification" 86400 0 in
  let w' :=
    (auth.password_reset_confirm TokenCodec.auth_service 100 link "hunter2"
       Examples.world).2 in
  failed (auth.login TokenCodec.auth_service 200
            {| form_username := "a@x.com"; form_password := "hunter2" |} w').1
  = false
  ∧ (auth.login TokenCodec.auth_service 200
       {| form_username := "a@x.com"; form_password := "pw" |} w').1
    = inl (HTTPException 401 "Invalid password").
Proof.
  apply (password_reset_then_login TokenCodec.auth_service 100 200
           (TokenCodec.issue "a@x.com" "email-verification" 86400 0)
           "hunter2" "pw" "a@x.com" Examples.alice Examples.world).
  - exact keyed_by_email_example.
  - reflexivity.
  - reflexivity.
  - reflexivity.
  - reflexivity.
  - reflexivity.
Defined.

(** ** The router *)

Lemma touches_dom w w' :
  touches w w' → keyed_by_email w → dom (users w') = dom (users w).
Proof.
  intros [Heq | (e & u & u' & Hu & Hup & Heq)] Hk; rewrite Heq;
    [reflexivity |].
  rewrite dom_insert_L, (Hk e u Hu).
  assert (Hin : e ∈ dom (users w)) by (apply elem_of_dom; eauto).
  apply subseteq_union_1_L. by apply singleton_subseteq_l.
Qed.

(** Whatever requests the six routes serve, the table stays keyed by email
    and holds the same set of accounts: login, refresh, confirmation and
    password reset neither create nor delete an account. *)
Theorem router_keeps_accounts
    (svc : AuthService) (rs : list Request) (w : World) :
  keyed_by_email w →
  keyed_by_email (serve svc rs w).2
  ∧ dom (users (serve svc rs w).2) = dom (users w).
Proof.
  revert w. induction rs as [| r rs IH]; intros w Hk; [by split |].
  rewrite serve_cons. cbn [fst snd].
  pose proof (route_touches svc r w) as Ht.
  destruct (IH _ (touches_keyed _ _ Ht Hk)) as [Hk' Hdom].
  split; [exact Hk' |]. by rewrite Hdom, (touches_dom _ _ Ht Hk).
Qed.

Lemma router_keeps_accounts_witness :
  let link := TokenCodec.issue "b@x.com" "email-verification" 86400 0 in
  let rs :=
    [Login 100 {| form_username := "a@x.com"; form_password := "pw" |};
     ConfirmedEmail 150 link;
     RefreshToken 200 Examples.R0;
     PasswordReset 250 {| body_email := "nobody@x.com" |};
     PasswordResetConfirm 300 link "hunter2"] in
  keyed_by_email (serve TokenCodec.auth_service rs Examples.world).2
  ∧ dom (users (serve TokenCodec.auth_service rs Examples.world).2)
    = dom (users Examples.world).
Proof.
  apply (router_keeps_accounts TokenCodec.auth_service
           [Login 100 {| form_username := "a@x.com"; form_password := "pw" |};
            ConfirmedEmail 150
              (TokenCodec.issue "b@x.com" "email-verification" 86400 0);
            RefreshToken 200 Examples.R0;
            PasswordReset 250 {| body_email := "nobody@x.com" |};
            PasswordResetConfirm 300
              (TokenCodec.issue "b@x.com" "email-verification" 86400 0)
              "hunter2"]
           Examples.world).
  exact keyed_by_email_example.
Defined.

(** ** Signup *)

Lemma signup_fresh_run
    (svc : AuthService) (base_url : string) (body : UserSchema) (w : World) :
  users w !! schema_email body = None →
  auth.signup svc base_url body w
  = let new_user :=
      User.mk (next_user_id (users w)) (schema_username body)
              (schema_email body)
              (get_password_hash svc (schema_password body)) false None in
    (inr new_user,
     mkWorld (<[schema_email body := new_user]> (users w))
       (background_tasks w
        ++ [send_email (schema_email body) (schema_username body)
              (Some base_url) None])).
Proof.
  intros Hu. unfold auth.signup, create_user, set_schema_password.
  run. rewrite Hu. reflexivity.
Qed.

(** A signup with an email that has an account is refused with 409: the
    account that exists is not overwritten and no email is queued. *)
Theorem signup_conflict
    (svc : AuthService) (base_url : string) (body : UserSchema)
    (u : User.t) (w : World) :
  users w !! schema_email body = Some u →
  auth.signup svc base_url body w
  = (inl (HTTPException HTTP_409_CONFLICT "Account already exists"), w).
Proof. intros Hu. unfold auth.signup. run. by rewrite Hu. Qed.

Lemma signup_conflict_witness :
  auth.signup TokenCodec.auth_service "http://testserver/"
    {| schema_username := "mallory"; schema_email := "a@x.com";
       schema_password := "x" |} Examples.world
  = (inl (HTTPException 409 "Account already exists"), Examples.world).
Proof.
  apply (signup_conflict TokenCodec.auth_service "http://testserver/"
           {| schema_username := "mallory"; schema_email := "a@x.com";
              schema_password := "x" |} Examples.alice Examples.world).
  reflexivity.
Defined.

(** A signup with a new email stores the account with the hash of the
    password, not the password, unconfirmed and without refresh token, and
    queues one confirmation email. Until the email is confirmed every login
    on it is refused with 401, the right password included, and a second
    signup with the same email is refused with 409. *)
Theorem signup_then_login_refused
    (svc : AuthService) (base_url : string) (now : Z) (body : UserSchema)
    (submitted : string) (w : World) :
  users w !! schema_email body = None →
  let (r, w') := auth.signup svc base_url body w in
  (∃ id,
     r = inr (User.mk id (schema_username body) (schema_email body)
                (get_password_hash svc (schema_password body)) false None)
     ∧ users w' !! schema_email body
       = Some (User.mk id (schema_username body) (schema_email body)
                 (get_password_hash svc (schema_password body)) false None))
  ∧ background_tasks w'
    = (background_tasks w
       ++ [send_email (schema_email body) (schema_username body)
             (Some base_url) None])%list
  ∧ auth.login svc now
      {| form_username := schema_email body; form_password := submitted |} w'
    = (inl (HTTPException HTTP_401_UNAUTHORIZED "Email not confirmed"), w')
  ∧ auth.signup svc base_url body w'
    = (inl (HTTPException HTTP_409_CONFLICT "Account already exists"), w').
Proof.
  intros Hu. rewrite (signup_fresh_run svc base_url body w Hu). cbv zeta.
  set (new_user := User.mk _ _ _ _ _ _).
  set (w' := mkWorld _ _).
  assert (Hu' : users w' !! schema_email body = Some new_user)
    by apply lookup_insert_eq.
  split; [by exists (next_user_id (users w)) |].
  split; [reflexivity |]. split.
  - clearbody w'. run. rewrite Hu'. reflexivity.
  - clearbody w'. unfold auth.signup. run. by rewrite Hu'.
Qed.

Lemma signup_then_login_refused_witness :
  let body := {| schema_username := "carol"; schema_email := "c@x.com";
                 schema_password := "s3cret" |} in
  let (r, w') :=
    auth.signup TokenCodec.auth_service "http://testserver/" body
      Examples.world in
  (∃ id,
     r = inr (User.mk id "carol" "c@x.com" (TokenCodec.hash "s3cret") false
                None)
     ∧ users w' !! "c@x.com"
       = Some (User.mk id "carol" "c@x.com" (TokenCodec.hash "s3cret") false
                 None))
  ∧ background_tasks w'
    = [send_email "c@x.com" "carol" (Some "http://testserver/") None]
  ∧ auth.login TokenCodec.auth_service 100
      {| form_username := "c@x.com"; form_password := "s3cret" |} w'
    = (inl (HTTPException 401 "Email not confirmed"), w')
  ∧ auth.signup TokenCodec.auth_service "http://testserver/" body w'
    = (inl (HTTPException 409 "Account already exists"), w').
Proof.
  apply (signup_then_login_refused TokenCodec.auth_service
           "http://testserver/" 100
           {| schema_username := "carol"; schema_email := "c@x.com";
              schema_password := "s3cret" |} "s3cret" Examples.world).
  reflexivity.
Defined.

Lemma keyed_by_email_insert k u ts w :
  keyed_by_email w → User.email u = k →
  keyed_by_email (mkWorld (<[k := u]> (users w)) ts).
Proof.
  intros Hk He k' u'. simpl. rewrite lookup_insert. case_decide as Hd.
  - intros [= <-]. by subst.
  - apply Hk.
Qed.

(** End to end: after a signup with a new email and the confirmation with a
    token that decodes to that email, a login with the password of the
    signup is accepted, when the verifier recognises the hash it made, and
    stores the refresh token that it returns. *)
Theorem signup_confirm_login
    (svc : AuthService) (base_url token : string) (t1 t2 : Z)
    (body : UserSchema) (w : World) :
  keyed_by_email w →
  users w !! schema_email body = None →
  get_email_from_token svc t1 token = inr (schema_email body) →
  verify_password svc (schema_password body)
    (get_password_hash svc (schema_password body)) = true →
  let w1 := (auth.signup svc base_url body w).2 in
  let (r2, w2) := auth.confirmed_email svc t1 token w1 in
  let (r3, w3) :=
    auth.login svc t2
      {| form_username := schema_email body;
         form_password := schema_password body |} w2 in
  r2 = inr {| message := "Email confirmed" |}
  ∧ r3 = inr {| access_token := create_access_token svc t2 (schema_email body);
                refresh_token :=
                  create_refresh_token svc t2 (schema_email body);
                token_type := "bearer" |}
  ∧ User.refresh_token <$> users w3 !! schema_email body
    = Some (Some (create_refresh_token svc t2 (schema_email body))).
Proof.
  intros Hk Hu Hd Hv. rewrite (signup_fresh_run svc base_url body w Hu).
  cbv zeta. cbn [snd].
  set (e := schema_email body) in *.
  set (nu := User.mk _ _ _ _ _ _).
  set (w1 := mkWorld _ _).
  assert (Hk1 : keyed_by_email w1) by by apply keyed_by_email_insert.
  assert (Hu1 : users w1 !! e = Some nu) by apply lookup_insert_eq.
  rewrite (confirmed_email_confirms svc t1 token e nu w1 Hk1 Hd Hu1 eq_refl).
  set (w2 := with_users _ w1).
  assert (Hk2 : keyed_by_email w2) by by apply keyed_by_email_insert.
  assert (Hu2 : users w2 !! e = Some (User.set_confirmed true nu))
    by apply lookup_insert_eq.
  rewrite (login_stores_refresh_token svc t2 e (schema_password body) _ w2
             Hk2 Hu2 eq_refl Hv).
  split; [reflexivity |]. split; [reflexivity |].
  simpl. by rewrite lookup_insert_eq.
Qed.

Lemma signup_confirm_login_witness :
  let body := {| schema_username := "carol"; schema_email := "c@x.com";
                 schema_password := "s3cret" |} in
  let link := TokenCodec.issue "c@x.com" "email-verification" 86400 0 in
  let w1 :=
    (auth.signup TokenCodec.auth_service "http://testserver/" body
       Examples.world).2 in
  let (r2, w2) := auth.confirmed_email TokenCodec.auth_service 100 link w1 in
  let (r3, w3) :=
    auth.login TokenCodec.auth_service 200
      {| form_username := "c@x.com"; form_password := "s3cret" |} w2 in
  r2 = inr {| message := "Email confirmed" |}
  ∧ r3 = inr {| access_token := "access.1100.c@x.com";
                refresh_token := "refresh.605000.c@x.com";
                token_type := "bearer" |}
  ∧ User.refresh_token <$> users w3 !! "c@x.com"
    = Some (Some "refresh.605000.c@x.com").
Proof.
  apply (signup_confirm_login TokenCodec.auth_service "http://testserver/"
           (TokenCodec.issue "c@x.com" "email-verification" 86400 0) 100 200
           {| schema_username := "carol"; schema_email := "c@x.com";
              schema_password := "s3cret" |} Examples.world).
  - exact keyed_by_email_example.
  - reflexivity.
  - reflexivity.
  - reflexivity.
Defined.

(** * Further properties of the contact repository *)

(** ** Create, update, delete, then get *)

Lemma selected_apply_update cid user body c :
  contacts.selected cid user (contacts.apply_update body c)
  = contacts.selected cid user c.
Proof. reflexivity. Qed.

Lemma filter_selected_update cid user body (l : list Contact.t) :
  filter (λ c, contacts.selected cid user c = true)
         (map (λ c, if contacts.selected cid user c
                    then contacts.apply_update body c else c) l)
  = map (contacts.apply_update body)
        (filter (λ c, contacts.selected cid user c = true) l).
Proof.
  induction l as [| c l IH]; [reflexivity |].
  rewrite map_cons, (filter_cons _ c l).
  destruct (contacts.selected cid user c) eqn:Hs.
  - rewrite decide_True by reflexivity.
    rewrite filter_cons_True by (by rewrite selected_apply_update).
    by rewrite IH.
  - rewrite decide_False by discriminate.
    rewrite filter_cons_False by (rewrite Hs; discriminate).
    exact IH.
Qed.

Lemma filter_selected_delete cid user (l : list Contact.t) :
  filter (λ c, contacts.selected cid user c = true)
         (filter (λ c, contacts.selected cid user c = false) l) = [].
Proof.
  induction l as [| c l IH]; [reflexivity |].
  rewrite (filter_cons _ c l).
  destruct (contacts.selected cid user c) eqn:Hs.
  - by rewrite decide_False by discriminate.
  - rewrite decide_True by reflexivity.
    rewrite filter_cons_False by (rewrite Hs; discriminate).
    exact IH.
Qed.

Lemma length_filter_split {A} (f : A → bool) (l : list A) :
  (length (filter (λ x, f x = true) l) + length (filter (λ x, f x = false) l)
   = length l)%nat.
Proof.
  induction l as [| x l IH]; [reflexivity |].
  rewrite !filter_cons.
  destruct (f x); repeat case_decide; try congruence; simpl; lia.
Qed.

(** In a table whose ids are below the id sequence, the contact that
    [create_contact] returns is the one that [get_contact] finds under its
    id for the same user; the ids stay below the sequence, so the next
    create takes a new id; and what is found under every other id is as
    before. *)
Theorem create_then_get
    (body : ContactCreateSchema) (db : Session) (user : User.t) :
  ids_below db →
  let (c, db') := contacts.create_contact body db user in
  contacts.get_contact (Contact.id c) db' user = inr (Some c)
  ∧ ids_below db'
  ∧ ∀ cid other, cid ≠ Contact.id c →
      contacts.get_contact cid db' other = contacts.get_contact cid db other.
Proof.
  intros Hids. unfold contacts.create_contact.
  set (c := Contact.mk _ _ _ _ _ _ _ _).
  unfold contacts.get_contact. simpl.
  split; [| split].
  - rewrite filter_app.
    rewrite (selected_none (id_seq db) user (rows db)).
    + rewrite filter_cons_True; [reflexivity |].
      unfold contacts.selected, contacts.owned_by. simpl.
      by rewrite !bool_decide_eq_true_2.
    + intros c' Hc' Hid. apply Hids in Hc'. lia.
  - intros c' Hc'. simpl in *.
    apply elem_of_app in Hc' as [Hc' | Hc'].
    + apply Hids in Hc'. lia.
    + apply list_elem_of_singleton in Hc'. subst c'. simpl. lia.
  - intros cid other Hne. rewrite filter_app.
    rewrite (filter_cons_False _ c []).
    + by rewrite filter_nil, app_nil_r.
    + intros Hs. apply selected_owned in Hs as [Hid _]. simpl in *.
      congruence.
Qed.

Lemma ids_below_example : ids_below ContactExamples.session.
Proof.
  intros c Hc. unfold ContactExamples.session in *. simpl in *.
  apply elem_of_cons in Hc as [-> | Hc]; [reflexivity |].
  apply elem_of_cons in Hc as [-> | Hc]; [reflexivity |].
  by apply elem_of_nil in Hc.
Qed.

Lemma create_then_get_witness :
  let body := {| new_first_name := "Erin"; new_last_name := "Doe";
                 new_email := "erin@x.com"; new_phone_number := "555-0102";
                 new_birthday := date.mk 1992 2 2; new_note := None |} in
  let (c, db') :=
    contacts.create_contact body ContactExamples.session Examples.alice in
  contacts.get_contact (Contact.id c) db' Examples.alice = inr (Some c)
  ∧ ids_below db'
  ∧ ∀ cid other, cid ≠ Contact.id c →
      contacts.get_contact cid db' other
      = contacts.get_contact cid ContactExamples.session other.
Proof.
  apply (create_then_get
           {| new_first_name := "Erin"; new_last_name := "Doe";
              new_email := "erin@x.com"; new_phone_number := "555-0102";
              new_birthday := date.mk 1992 2 2; new_note := None |}
           ContactExamples.session Examples.alice).
  exact ids_below_example.
Defined.

(** After a delete that returned a contact, nothing is found under its id
    for that user, the table has one row less, and the rows left are the
    rows that are not that contact. *)
Theorem delete_then_get
    (contact_id : Z) (db : Session) (user : User.t) (c : Contact.t) :
  (contacts.delete_contact contact_id db user).1 = inr (Some c) →
  let db' := (contacts.delete_contact contact_id db user).2 in
  contacts.get_contact contact_id db' user = inr None
  ∧ (length (rows db') + 1 = length (rows db))%nat
  ∧ ∀ c', c' ∈ rows db' ↔ c' ∈ rows db ∧ c' ≠ c.
Proof.
  unfold contacts.delete_contact, contacts.get_contact.
  destruct (scalar_one_or_none _) as [x | [c0 |]] eqn:Hsel; simpl;
    [discriminate | | discriminate].
  intros [= ->]. apply scalar_one_or_none_Some in Hsel.
  split; [| split].
  - by rewrite filter_selected_delete.
  - pose proof (length_filter_split (contacts.selected contact_id user)
                  (rows db)) as Hlen.
    rewrite Hsel in Hlen. simpl in Hlen. lia.
  - intros c'. rewrite list_elem_of_filter.
    assert (Hiff : ∀ x, x ∈ rows db →
              (contacts.selected contact_id user x = true ↔ x = c)).
    { intros x Hx. split.
      - intros Hs.
        assert (Hin : x ∈ filter
                  (λ c, contacts.selected contact_id user c = true) (rows db))
          by (apply list_elem_of_filter; by split).
        rewrite Hsel in Hin. by apply list_elem_of_singleton in Hin.
      - intros ->.
        assert (Hin : c ∈ filter
                  (λ c, contacts.selected contact_id user c = true) (rows db))
          by (rewrite Hsel; apply list_elem_of_here).
        by apply list_elem_of_filter in Hin as [Hs _]. }
    split.
    + intros [Hs Hin]. split; [exact Hin |].
      intros ->. rewrite (proj2 (Hiff c Hin) eq_refl) in Hs. discriminate.
    + intros [Hin Hne]. split; [| exact Hin].
      destruct (contacts.selected contact_id user c') eqn:Hs; [| reflexivity].
      by apply (Hiff c' Hin) in Hs.
Qed.

Lemma delete_then_get_witness :
  let db' :=
    (contacts.delete_contact 7 ContactExamples.session Examples.alice).2 in
  contacts.get_contact 7 db' Examples.alice = inr None
  ∧ (length (rows db') + 1 = length (rows ContactExamples.session))%nat
  ∧ ∀ c', c' ∈ rows db'
          ↔ c' ∈ rows ContactExamples.session ∧ c' ≠ ContactExamples.carol.
Proof.
  apply (delete_then_get 7 ContactExamples.session Examples.alice
           ContactExamples.carol).
  reflexivity.
Defined.

(** After an update that returned a contact, that contact, with the fields
    of the body written over the old ones, is what [get_contact] finds
    under the id for that user; its id and owner are those of the request,
    and the table has as many rows and the same id sequence as before. *)
Theorem update_then_get
    (contact_id : Z) (body : ContactUpdateSchema) (db : Session)
    (user : User.t) (c : Contact.t) :
  (contacts.update_contact contact_id body db user).1 = inr (Some c) →
  let db' := (contacts.update_contact contact_id body db user).2 in
  contacts.get_contact contact_id db' user = inr (Some c)
  ∧ (∃ old, contacts.get_contact contact_id db user = inr (Some old)
            ∧ c = contacts.apply_update body old)
  ∧ Contact.id c = contact_id
  ∧ Contact.user_id c = User.id user
  ∧ length (rows db') = length (rows db)
  ∧ id_seq db' = id_seq db.
Proof.
  unfold contacts.update_contact, contacts.get_contact.
  destruct (scalar_one_or_none _) as [x | [c0 |]] eqn:Hsel; simpl;
    [discriminate | | discriminate].
  intros [= <-].
  destruct (get_contact_owned contact_id db user c0 Hsel) as (_ & Hid & Ho).
  apply scalar_one_or_none_Some in Hsel.
  rewrite filter_selected_update, Hsel. simpl.
  split; [reflexivity |]. split; [by exists c0 |].
  split; [exact Hid |]. split; [exact Ho |].
  split; [apply length_map | reflexivity].
Qed.

Lemma update_then_get_witness :
  let body := {| upd_first_name := None; upd_last_name := Some "Smith";
                 upd_email := None; upd_phone_number := None;
                 upd_birthday := None; upd_note := Some (Some "moved") |} in
  let renamed :=
    Contact.mk 7 "Carol" "Smith" "carol@x.com" "555-0100"
               (date.mk 1990 1 2) (Some "moved") 1 in
  let db' :=
    (contacts.update_contact 7 body ContactExamples.session
       Examples.alice).2 in
  contacts.get_contact 7 db' Examples.alice = inr (Some renamed)
  ∧ (∃ old,
       contacts.get_contact 7 ContactExamples.session Examples.alice
       = inr (Some old)
       ∧ renamed = contacts.apply_update body old)
  ∧ Contact.id renamed = 7
  ∧ Contact.user_id renamed = User.id Examples.alice
  ∧ length (rows db') = length (rows ContactExamples.session)
  ∧ id_seq db' = id_seq ContactExamples.session.
Proof.
  apply (update_then_get 7
           {| upd_first_name := None; upd_last_name := Some "Smith";
              upd_email := None; upd_phone_number := None;
              upd_birthday := None; upd_note := Some (Some "moved") |}
           ContactExamples.session Examples.alice
           (Contact.mk 7 "Carol" "Smith" "carol@x.com" "555-0100"
                       (date.mk 1990 1 2) (Some "moved") 1)).
  reflexivity.
Defined.

(** An update whose body sets no field changes nothing: it returns what
    [get_contact] returns and the table is the one before the call. *)
Theorem update_unset_body_changes_nothing
    (contact_id : Z) (db : Session) (user : User.t) :
  contacts.update_contact contact_id unset_body db user
  = (contacts.get_contact contact_id db user, db).
Proof.
  assert (Hid : ∀ c, contacts.apply_update unset_body c = c)
    by (by intros []).
  unfold contacts.update_contact, contacts.get_contact.
  destruct (scalar_one_or_none _) as [x | [c0 |]]; [reflexivity | |
    reflexivity].
  rewrite Hid. f_equal. destruct db as [l n]. simpl. f_equal.
  induction l as [| c l IH]; [reflexivity |].
  simpl. rewrite IH, Hid. by destruct (contacts.selected contact_id user c).
Qed.

(** ** The window of upcoming birthdays *)

Lemma mm_dd_order_check_ok : mm_dd_order_check = true.
Proof. vm_compute. reflexivity. Qed.

Lemma In_seqZ (k m n : Z) : (m ≤ k < m + n)%Z → In k (seqZ m n).
Proof. intros H. apply list_elem_of_In, elem_of_seqZ. exact H. Qed.

Lemma mm_dd_leb (ma da mb db : Z) :
  (1 ≤ ma ≤ 12)%Z → (1 ≤ da ≤ 31)%Z → (1 ≤ mb ≤ 12)%Z → (1 ≤ db ≤ 31)%Z →
  String.leb (date.pad2 ma ++ "-" ++ date.pad2 da)
             (date.pad2 mb ++ "-" ++ date.pad2 db)
  = month_day_leb ma da mb db.
Proof.
  intros Hma Hda Hmb Hdb.
  pose proof mm_dd_order_check_ok as Hall. unfold mm_dd_order_check in Hall.
  rewrite forallb_forall in Hall.
  specialize (Hall ma (In_seqZ ma 1 12 ltac:(lia))).
  rewrite forallb_forall in Hall.
  specialize (Hall da (In_seqZ da 1 31 ltac:(lia))).
  rewrite forallb_forall in Hall.
  specialize (Hall mb (In_seqZ mb 1 12 ltac:(lia))).
  rewrite forallb_forall in Hall.
  specialize (Hall db (In_seqZ db 1 31 ltac:(lia))).
  by apply Bool.eqb_prop in Hall.
Qed.

Lemma month_day_leb_le (a b : date.t) :
  month_day_leb (date.month a) (date.day a) (date.month b) (date.day b) = true
  ↔ month_day_le a b.
Proof.
  unfold month_day_leb, month_day_le.
  rewrite orb_true_iff, andb_true_iff, Z.ltb_lt, Z.eqb_eq, Z.leb_le.
  reflexivity.
Qed.

Lemma days_in_month_bounds (y m : Z) :
  (28 ≤ date.days_in_month y m ≤ 31)%Z.
Proof.
  unfold date.days_in_month.
  repeat match goal with |- context [if ?b then _ else _] => destruct b end;
    lia.
Qed.

Lemma next_day_valid (d : date.t) : valid_date d → valid_date (date.next_day d).
Proof.
  destruct d as [y m dd]. unfold valid_date, date.next_day. simpl.
  intros [Hm Hd].
  destruct (Z.ltb_spec dd (date.days_in_month y m)); simpl; [lia |].
  destruct (Z.ltb_spec m 12); simpl.
  - pose proof (days_in_month_bounds y (m + 1)). lia.
  - pose proof (days_in_month_bounds (y + 1) 1). lia.
Qed.

Lemma add_days_valid (n : nat) : ∀ d,
  valid_date d → valid_date (date.add_days n d).
Proof.
  induction n as [| n IH]; intros d Hd; [exact Hd |].
  simpl. apply IH. by apply next_day_valid.
Qed.

Lemma valid_date_bounds (d : date.t) :
  valid_date d → (1 ≤ date.month d ≤ 12)%Z ∧ (1 ≤ date.day d ≤ 31)%Z.
Proof.
  intros [Hm Hd].
  pose proof (days_in_month_bounds (date.year d) (date.month d)). lia.
Qed.

(** For a date of the calendar and a birthday with a month 1..12 and a day
    1..31, the comparison of the [MM-DD] texts is the comparison by month
    and then day: the query returns the rows of the user whose birthday is
    not before today and not after the day seven days later, both read
    within one year. *)
Theorem upcoming_birthdays_by_month_day
    (today : date.t) (db : Session) (user : User.t) (c : Contact.t) :
  valid_date today →
  (1 ≤ date.month (Contact.birthday c) ≤ 12)%Z →
  (1 ≤ date.day (Contact.birthday c) ≤ 31)%Z →
  c ∈ contacts.get_upcoming_birthdays today db user
  ↔ c ∈ rows db
    ∧ Contact.user_id c = User.id user
    ∧ month_day_le today (Contact.birthday c)
    ∧ month_day_le (Contact.birthday c) (date.add_days 7 today).
Proof.
  intros Hv Hbm Hbd.
  destruct (valid_date_bounds _ Hv) as [Htm Htd].
  destruct (valid_date_bounds _ (add_days_valid 7 _ Hv)) as [Hem Hed].
  rewrite get_upcoming_birthdays_spec. unfold date.to_char_MM_DD.
  rewrite !mm_dd_leb by assumption.
  by rewrite !month_day_leb_le.
Qed.

Lemma upcoming_birthdays_by_month_day_witness :
  let feb2 := Contact.mk 9 "Erin" "Doe" "erin@x.com" "555-0102"
                         (date.mk 1992 2 2) None 1 in
  feb2 ∈ contacts.get_upcoming_birthdays (date.mk 2025 1 28)
           (mkSession [feb2] 10) Examples.alice
  ↔ feb2 ∈ [feb2]
    ∧ Contact.user_id feb2 = User.id Examples.alice
    ∧ month_day_le (date.mk 2025 1 28) (Contact.birthday feb2)
    ∧ month_day_le (Contact.birthday feb2)
        (date.add_days 7 (date.mk 2025 1 28)).
Proof.
  apply (upcoming_birthdays_by_month_day (date.mk 2025 1 28)
           (mkSession
              [Contact.mk 9 "Erin" "Doe" "erin@x.com" "555-0102"
                          (date.mk 1992 2 2) None 1] 10)
           Examples.alice
           (Contact.mk 9 "Erin" "Doe" "erin@x.com" "555-0102"
                       (date.mk 1992 2 2) None 1)).
  - unfold valid_date. simpl. vm_compute. repeat split; discriminate.
  - simpl. lia.
  - simpl. lia.
Defined.

(** From the 25th of December on, in every year 1..9998, for which the day
    seven days later is still a date, the query returns no contact at all,
    whatever the table holds: the window ends in January, and no [MM-DD]
    text lies between one that starts with 12 and one that starts with 01. *)
Theorem upcoming_birthdays_empty_at_year_end
    (y d : Z) (db : Session) (user : User.t) :
  (1 ≤ y ≤ 9998)%Z →
  (25 ≤ d ≤ 31)%Z →
  contacts.get_upcoming_birthdays (date.mk y 12 d) db user = []
  ∧ date.year (date.add_days 7 (date.mk y 12 d)) = (y + 1)%Z
  ∧ (date.year (date.add_days 7 (date.mk y 12 d)) ≤ 9999)%Z.
Proof.
  intros Hy Hd.
  assert (Hcases : d = 25 ∨ d = 26 ∨ d = 27 ∨ d = 28 ∨ d = 29 ∨ d = 30
                   ∨ d = 31) by lia.
  assert (Hyear : date.year (date.add_days 7 (date.mk y 12 d)) = (y + 1)%Z)
    by (destruct Hcases as [-> | [-> | [-> | [-> | [-> | [-> | ->]]]]]];
        reflexivity).
  split; [| split; [exact Hyear | rewrite Hyear; lia]].
  unfold contacts.get_upcoming_birthdays.
  induction (rows db) as [| c l IH]; [reflexivity |].
  rewrite filter_cons_False; [exact IH |].
  rewrite !andb_true_iff. intros [[Hlo Hhi] _].
  assert (Hstart : ∃ a, date.to_char_MM_DD (date.mk y 12 d) = "1" ++ a)
    by (by exists ("2-" ++ date.pad2 d)).
  assert (Hend : ∃ b, date.to_char_MM_DD (date.add_days 7 (date.mk y 12 d))
                      = "0" ++ b)
    by (destruct Hcases as [-> | [-> | [-> | [-> | [-> | [-> | ->]]]]]];
        eexists; reflexivity).
  destruct Hstart as [a Ha], Hend as [b Hb]. rewrite Ha in Hlo.
  rewrite Hb in Hhi.
  apply (leb_december_january a b) in Hlo. congruence.
Qed.

Lemma upcoming_birthdays_empty_at_year_end_witness :
  contacts.get_upcoming_birthdays (date.mk 2030 12 31) ContactExamples.session
    Examples.bob = []
  ∧ date.year (date.add_days 7 (date.mk 2030 12 31)) = 2031
  ∧ (date.year (date.add_days 7 (date.mk 2030 12 31)) ≤ 9999)%Z.
Proof.
  apply (upcoming_birthdays_empty_at_year_end 2030 31 ContactExamples.session
           Examples.bob); lia.
Defined.

(** ** Filters *)

(** When at least one of the three filter arguments is a non-empty text,
    every contact of the page matches, for each argument that is not
    [None], the pattern [%argument%] on the column of that argument: the
    given filters are all applied, an empty text among them as the pattern
    [%%]. *)
Theorem get_contacts_filter_sound
    (ilike : string → string → bool) (limit offset : nat)
    (first_name last_name email : option string)
    (db : Session) (user : User.t) (c : Contact.t) :
  str_truthy first_name || str_truthy last_name || str_truthy email = true →
  c ∈ contacts.get_contacts ilike limit offset first_name last_name email
        db user →
  (∀ s, first_name = Some s →
        ilike (Contact.first_name c) ("%" ++ s ++ "%") = true)
  ∧ (∀ s, last_name = Some s →
          ilike (Contact.last_name c) ("%" ++ s ++ "%") = true)
  ∧ (∀ s, email = Some s →
          ilike (Contact.email c) ("%" ++ s ++ "%") = true).
Proof.
  intros Hany Hc. unfold contacts.get_contacts in Hc. rewrite Hany in Hc.
  apply subseteq_take, subseteq_drop, list_elem_of_filter in Hc.
  destruct Hc as [Hs _].
  apply andb_true_iff in Hs as [_ Hs].
  apply andb_true_iff in Hs as [Hs Hem].
  apply andb_true_iff in Hs as [Hfn Hln].
  repeat split; intros s ->; assumption.
Qed.

Lemma get_contacts_filter_sound_witness :
  (∀ s, Some "CAR" = Some s →
        ContactExamples.ilike (Contact.first_name ContactExamples.carol)
          ("%" ++ s ++ "%") = true)
  ∧ (∀ s, Some "" = Some s →
          ContactExamples.ilike (Contact.last_name ContactExamples.carol)
            ("%" ++ s ++ "%") = true)
  ∧ (∀ s, (None : option string) = Some s →
          ContactExamples.ilike (Contact.email ContactExamples.carol)
            ("%" ++ s ++ "%") = true).
Proof.
  apply (get_contacts_filter_sound ContactExamples.ilike 10 0
           (Some "CAR") (Some "") None ContactExamples.session
           Examples.alice ContactExamples.carol).
  - reflexivity.
  - vm_compute. left.
Defined.
